(** * mini-webpack: the module graph builder of [src/mini-webpack/index.js]

    A shallow embedding of [createAsset], [createGraph], [build],
    [readConfigFile] and [init].
    The JavaScript code runs in one thread and touches three pieces of
    state: the module level counter [id], the file system, and (for the
    claims about I/O) the sequence of file operations it performs.  These
    make up the [world] that every operation threads through; a thrown
    exception is an [Err] result that stops the rest of the computation
    and keeps the world reached so far. *)

From stdpp Require Import base gmap list strings pretty.

Local Open Scope string_scope.
Local Open Scope list_scope.

(** ** Worlds, exceptions and the monad of the embedding *)

(** The exceptions the code can raise.  [ConfigError] is the
    [new Error("entry Cannot be empty")] of [build]; the others are raised
    by [fs.readFileSync], [parser.parse], [babel.transformFromAst],
    [ejs.render] and [fs.writeFileSync]; [TypeError] is the property access
    on [undefined]. *)
Inductive error : Type :=
  | ConfigError (msg : string)
  | ReadError (file : string)
  | ParseError (file : string)
  | TransformError (file : string)
  | TemplateError
  | TypeError
  | WriteError (file : string).

Inductive result (A : Type) : Type :=
  | Ok (a : A)
  | Err (e : error).
Arguments Ok {A} a.
Arguments Err {A} e.

(** File operations, newest first in [io_log]: the calls of
    [fs.readFileSync] and of [fs.writeFileSync] (whether they return or
    throw), of [fs.readdirSync], and the loading of a module by [require]. *)
Inductive io_event : Type :=
  | EvRead (file : string)
  | EvWrite (file : string) (content : string)
  | EvReaddir (dir : string)
  | EvRequire (file : string).

Definition is_read (ev : io_event) : Prop :=
  match ev with EvWrite _ _ => False | _ => True end.

(** The operations of configuration discovery. *)
Definition is_config_io (ev : io_event) : Prop :=
  match ev with EvReaddir _ | EvRequire _ => True | _ => False end.

(** What a call of [fs.writeFileSync] can do to its target: write it, or
    throw, leaving the target as it was ([WriteFailed None]: the directory
    is missing, the file may not be written) or with what was written of it
    before the failure ([WriteFailed (Some remains)]: the target was opened
    and truncated). *)
Inductive write_outcome : Type :=
  | Written
  | WriteFailed (remains : option string).

(** [next_id] is the module level [let id = 0].  JavaScript numbers are
    exact integers below 2^53 and an array holds fewer than 2^32 elements,
    so a natural number models the counter of a build. *)
Record world : Type := World {
  next_id : nat;
  files : gmap string string;
  io_log : list io_event
}.

(** The state in which the program is loaded: [let id = 0], nothing done. *)
Definition initial_world (fs : gmap string string) : world :=
  {| next_id := 0; files := fs; io_log := [] |}.

Definition M (A : Type) : Type := world → result A * world.

Definition ret {A} (a : A) : M A := λ w, (Ok a, w).

Definition throw {A} (e : error) : M A := λ w, (Err e, w).

Definition bind {A B} (c : M A) (k : A → M B) : M B := λ w,
  match c w with
  | (Ok a, w') => k a w'
  | (Err e, w') => (Err e, w')
  end.

Notation "'let!' x ':=' c 'in' k" := (bind c (λ x, k))
  (at level 10, x name, c at level 100, k at level 200).

(** An external call that either returns or throws [e]. *)
Definition or_throw {A} (e : error) (o : option A) : M A :=
  match o with
  | Some a => ret a
  | None => throw e
  end.

(** [fs.readFileSync(file, {encoding: "utf-8"})]. *)
Definition readFileSync (file : string) : M string := λ w,
  let w' := {| next_id := next_id w; files := files w;
               io_log := EvRead file :: io_log w |} in
  match files w !! file with
  | Some source => (Ok source, w')
  | None => (Err (ReadError file), w')
  end.

(** [id++]. *)
Definition post_increment_id : M nat := λ w,
  (Ok (next_id w), {| next_id := S (next_id w); files := files w;
                      io_log := io_log w |}).

(** ** Data model *)

(** [obj[key] = value] on an object created by the literal [{}]: an own
    property is created or overwritten, except for the key [__proto__],
    whose inherited setter ignores a number. *)
Definition obj_set (key : string) (value : nat) (obj : gmap string nat)
  : gmap string nat :=
  if decide (key = "__proto__") then obj else <[key := value]> obj.

(** A string is truthy exactly when it is not empty. *)
Definition truthy (s : string) : bool :=
  match s with
  | EmptyString => false
  | String _ _ => true
  end.

(** The object returned by [createAsset]. *)
Module Asset.
Record t : Type := mk {
  filePath : string;
  code : string;
  deps : list string;
  id : nat;
  mapping : gmap string nat
}.

(** [asset.mapping[key] = value]. *)
Definition set_mapping (key : string) (value : nat) (a : t) : t :=
  {| filePath := filePath a; code := code a; deps := deps a; id := id a;
     mapping := obj_set key value (mapping a) |}.
End Asset.

(** The objects [{ filePath, code, mapping, id }] that [build] hands to the
    template. *)
Module TemplateData.
Record t : Type := mk {
  filePath : string;
  code : string;
  mapping : gmap string nat;
  id : nat
}.

Definition of_asset (asset : Asset.t) : t :=
  {| filePath := Asset.filePath asset; code := Asset.code asset;
     mapping := Asset.mapping asset; id := Asset.id asset |}.
End TemplateData.

Module Output.
Record t : Type := mk { path : string; filename : string }.
End Output.

(** The options object; [entry] is [None] when the property is missing. *)
Record options : Type := Options {
  entry : option string;
  output : Output.t
}.

(** ** The libraries the code calls

    [@babel/parser], [@babel/traverse], [babel-core], [path] and [ejs] are
    not part of the repository; the development is parametric in them, and
    in what the file system makes of a write: the world holds the content
    of files, not the directories, permissions and space that decide
    whether a file can be written. *)
Class Externals : Type := {
  (** the abstract syntax trees of the parser *)
  Ast : Type;
  (** [parser.parse(source, { sourceType: "module" })]; [None] when it
      throws *)
  parser_parse : string → option Ast;
  (** the [node.source.value] of the [ImportDeclaration] nodes, in the order
      in which [traverse.default] visits them *)
  import_sources : Ast → list string;
  (** the [code] of [babel.transformFromAst(ast, null, {presets: ["env"]})];
      [None] when it throws *)
  transformFromAst : Ast → option string;
  (** [path.resolve(from, to)] in the working directory of the process *)
  path_resolve : string → string → string;
  (** [ejs.render(template, { data })]; [None] when it throws *)
  ejs_render : string → list TemplateData.t → option string;
  (** what [fs.writeFileSync(file, content)] does to [file] *)
  write_result : string → string → write_outcome
}.

(** ** The program *)

Section Program.
Context `{Externals}.

(** [fs.writeFileSync(file, content)]. *)
Definition writeFileSync (file content : string) : M unit := λ w,
  let log := EvWrite file content :: io_log w in
  match write_result file content with
  | Written =>
      (Ok tt, {| next_id := next_id w; files := <[file := content]> (files w);
                 io_log := log |})
  | WriteFailed None =>
      (Err (WriteError file),
       {| next_id := next_id w; files := files w; io_log := log |})
  | WriteFailed (Some remains) =>
      (Err (WriteError file),
       {| next_id := next_id w; files := <[file := remains]> (files w);
          io_log := log |})
  end.

Definition createAsset (filePath : string) : M Asset.t :=
  let! source := readFileSync filePath in
  let! ast := or_throw (ParseError filePath) (parser_parse source) in
  let deps := import_sources ast in
  let! code := or_throw (TransformError filePath) (transformFromAst ast) in
  let! n := post_increment_id in
  ret {| Asset.filePath := filePath; Asset.code := code; Asset.deps := deps;
         Asset.id := n; Asset.mapping := ∅ |}.

(** [queue[i].deps.forEach(relativePath => { ... })]: [ds] is what is left
    of [queue[i].deps]. *)
Fixpoint forEach_deps (i : nat) (ds : list string) (queue : list Asset.t)
  : M (list Asset.t) :=
  match ds with
  | [] => ret queue
  | relativePath :: ds' =>
      if truthy relativePath then
        let! childAsset := createAsset (path_resolve "./example" relativePath) in
        let queue1 :=
          alter (Asset.set_mapping relativePath (Asset.id childAsset)) i queue in
        let queue2 := queue1 ++ [childAsset] in
        forEach_deps i ds' queue2
      else forEach_deps i ds' queue
  end.

(** [for (let i = ..., len = ...; i < len; i++) { ... }] with [remaining]
    the value of [len - i] at the test. *)
Fixpoint for_i (remaining i : nat) (queue : list Asset.t) : M (list Asset.t) :=
  match remaining with
  | 0 => ret queue
  | S remaining' =>
      match queue !! i with
      | None => throw TypeError
      | Some asset =>
          let! queue' := forEach_deps i (Asset.deps asset) queue in
          for_i remaining' (S i) queue'
      end
  end.

(** The loop header evaluates [len = queue.length] once, while the queue
    holds [mainAsset] only. *)
Definition createGraph (entry : string) : M (list Asset.t) :=
  let! mainAsset := createAsset entry in
  let queue := [mainAsset] in
  let len := length queue in
  for_i (len - 0) 0 queue.

Definition build (opts : options) : M unit :=
  let templateFilePath := "./bundle.ejs" in
  match entry opts with
  | None => throw (ConfigError "entry Cannot be empty")
  | Some entry =>
      if truthy entry then
        let! template := readFileSync templateFilePath in
        let! graph := createGraph entry in
        let data := TemplateData.of_asset <$> graph in
        let! code := or_throw TemplateError (ejs_render template data) in
        writeFileSync
          (Output.path (output opts) +:+ "/" +:+ Output.filename (output opts))
          code
      else throw (ConfigError "entry Cannot be empty")
  end.
(** [file] can be extracted from the file system [fs]: it is there, the
    parser accepts it and the transformer accepts its syntax tree. *)
Definition extractable (fs : gmap string string) (file : string) : Prop :=
  ∃ source ast code,
    fs !! file = Some source ∧ parser_parse source = Some ast ∧
    transformFromAst ast = Some code.

(** Everything [build] does before it writes the bundle. *)
Definition bundle_text (file : string) : M string :=
  let! template := readFileSync "./bundle.ejs" in
  let! graph := createGraph file in
  or_throw TemplateError (ejs_render template (TemplateData.of_asset <$> graph)).

Definition output_file (opts : options) : string :=
  Output.path (output opts) +:+ "/" +:+ Output.filename (output opts).

End Program.

(** The world after an attempt to extract [file]. *)
Definition after_read (file : string) (w : world) : world :=
  {| next_id := next_id w; files := files w; io_log := EvRead file :: io_log w |}.

Definition after_extract (file : string) (w : world) : world :=
  {| next_id := S (next_id w); files := files w;
     io_log := EvRead file :: io_log w |}.

(** ** What the traversal of one list of specifiers computes *)

(** The mapping left by [forEach_deps] on the asset whose specifiers are
    [ds], when the counter is [n] at the start and [mapping] is what the
    asset holds. *)
Fixpoint record_deps (ds : list string) (n : nat) (mapping : gmap string nat)
  : gmap string nat :=
  match ds with
  | [] => mapping
  | relativePath :: ds' =>
      if truthy relativePath
      then record_deps ds' (S n) (obj_set relativePath n mapping)
      else record_deps ds' n mapping
  end.

Definition with_mapping (a : Asset.t) (mapping : gmap string nat) : Asset.t :=
  {| Asset.filePath := Asset.filePath a; Asset.code := Asset.code a;
     Asset.deps := Asset.deps a; Asset.id := Asset.id a;
     Asset.mapping := mapping |}.

(** The specifiers that pass the test [if (relativePath)]. *)
Definition nonempty_deps (ds : list string) : list string :=
  filter (λ s, s ≠ "") ds.

(** The file reads of extracting the files [ps] one after the other, newest
    first. *)
Definition reads_of (ps : list string) : list io_event :=
  reverse (EvRead <$> ps).

(** ** What a computation depends on

    A computation is [framed] when it writes no file and its outcome is a
    function of the counter and of the files it reads: in any other world
    with the same counter and the same content in those files it performs
    the same reads, returns the same result and leaves the same counter. *)

Definition framed {A} (c : M A) : Prop :=
  ∀ wA, ∃ new,
    Forall is_read new ∧
    io_log (c wA).2 = new ++ io_log wA ∧
    files (c wA).2 = files wA ∧
    ∀ wB, next_id wB = next_id wA →
      (∀ p, EvRead p ∈ new → files wB !! p = files wA !! p) →
      c wB = ((c wA).1, {| next_id := next_id (c wA).2; files := files wB;
                           io_log := new ++ io_log wB |}).

(** ** A concrete project to run the program on

    A small instance of the external libraries: a source file is a sequence
    of lines, a line [import '<specifier>'] is an import declaration and
    every other line is kept as code.  The working directory is [/proj]. *)
Module Demo.

Definition newline : Ascii.ascii := Ascii.ascii_of_nat 10.

Fixpoint lines_from (acc : string) (s : string) : list string :=
  match s with
  | EmptyString => [String.rev acc]
  | String c s' =>
      if Ascii.eqb c newline then String.rev acc :: lines_from "" s'
      else lines_from (String c acc) s'
  end.

Definition import_of (line : string) : option string :=
  if String.prefix "import '" line
  then Some (String.substring 8 (String.length line - 9) line)
  else None.

Definition strip_dot_slash (s : string) : string :=
  if String.prefix "./" s
  then String.substring 2 (String.length s - 2) s
  else s.

Definition render_mapping (mapping : gmap string nat) : string :=
  String.concat ","
    ((λ kv : string * nat, kv.1 +:+ "=>" +:+ pretty kv.2) <$> map_to_list mapping).

Definition render_module (d : TemplateData.t) : string :=
  pretty (TemplateData.id d) +:+ ":[" +:+ TemplateData.filePath d +:+ "|"
  +:+ TemplateData.code d +:+ "|{" +:+ render_mapping (TemplateData.mapping d)
  +:+ "}]".

#[local] Instance externals : Externals := {|
  Ast := list string;
  parser_parse source := Some (lines_from "" source);
  import_sources ast := omap import_of ast;
  transformFromAst ast :=
    Some (String.concat ";"
            (filter (λ line, import_of line = None) ast));
  path_resolve from to :=
    "/proj/" +:+ strip_dot_slash from +:+ "/" +:+ strip_dot_slash to;
  ejs_render template data :=
    Some (template +:+ String.concat ";" (render_module <$> data));
  write_result _ _ := Written
|}.

Definition template : string := "modules ".

Definition opts : options :=
  {| entry := Some "/proj/example/a.js";
     output := {| Output.path := "/proj/dist"; Output.filename := "bundle.js" |} |}.

Definition a_js : string := "/proj/example/a.js".
Definition b_js : string := "/proj/example/b.js".
Definition c_js : string := "/proj/example/c.js".

(** [a.js] imports [b.js], [b.js] imports [c.js], [c.js] imports nothing. *)
Definition chain : gmap string string :=
  {[ "./bundle.ejs" := template;
     a_js := "import './b.js'" +:+ String newline "b()";
     b_js := "import './c.js'" +:+ String newline "c()";
     c_js := "done()" ]}.

(** [a.js] imports [b.js] twice. *)
Definition twice : gmap string string :=
  {[ "./bundle.ejs" := template;
     a_js := "import './b.js'" +:+ String newline "import './b.js'";
     b_js := "b = 1" ]}.

(** [a.js] imports [b.js], and [b.js] imports [c.js] twice. *)
Definition nested_twice : gmap string string :=
  {[ "./bundle.ejs" := template;
     a_js := "import './b.js'";
     b_js := "import './c.js'" +:+ String newline "import './c.js'";
     c_js := "c = 1" ]}.

(** [a.js] imports a file that does not exist. *)
Definition dangling : gmap string string :=
  {[ "./bundle.ejs" := template;
     a_js := "import './missing.js'" ]}.

(** [a.js] imports [b.js], and [b.js] imports a file that does not exist. *)
Definition dangling_child : gmap string string :=
  {[ "./bundle.ejs" := template;
     a_js := "import './b.js'";
     b_js := "import './missing.js'" ]}.

(** [a.js] imports the empty specifier and then [b.js]. *)
Definition with_empty : gmap string string :=
  {[ "./bundle.ejs" := template;
     a_js := "import ''" +:+ String newline "import './b.js'";
     b_js := "b = 1" ]}.

(** What [createGraph] returns for [chain], and the world it leaves. *)
Definition chain_graph : list Asset.t :=
  [ {| Asset.filePath := a_js; Asset.code := "b()"; Asset.deps := ["./b.js"];
       Asset.id := 0; Asset.mapping := {[ "./b.js" := 1 ]} |};
    {| Asset.filePath := b_js; Asset.code := "c()"; Asset.deps := ["./c.js"];
       Asset.id := 1; Asset.mapping := ∅ |} ].

Definition chain_world : world :=
  {| next_id := 2; files := chain; io_log := [EvRead b_js; EvRead a_js] |}.

(** What the traversal of the specification returns for [chain]. *)
Definition chain_graph_spec : list Asset.t :=
  [ {| Asset.filePath := a_js; Asset.code := "b()"; Asset.deps := ["./b.js"];
       Asset.id := 0; Asset.mapping := {[ "./b.js" := 1 ]} |};
    {| Asset.filePath := b_js; Asset.code := "c()"; Asset.deps := ["./c.js"];
       Asset.id := 1; Asset.mapping := {[ "./c.js" := 2 ]} |};
    {| Asset.filePath := c_js; Asset.code := "done()"; Asset.deps := [];
       Asset.id := 2; Asset.mapping := ∅ |} ].

(** What [createGraph] returns for [nested_twice]. *)
Definition nested_twice_graph : list Asset.t :=
  [ {| Asset.filePath := a_js; Asset.code := ""; Asset.deps := ["./b.js"];
       Asset.id := 0; Asset.mapping := {[ "./b.js" := 1 ]} |};
    {| Asset.filePath := b_js; Asset.code := "";
       Asset.deps := ["./c.js"; "./c.js"];
       Asset.id := 1; Asset.mapping := ∅ |} ].

(** What [createGraph] returns for [with_empty]. *)
Definition with_empty_graph : list Asset.t :=
  [ {| Asset.filePath := a_js; Asset.code := ""; Asset.deps := [""; "./b.js"];
       Asset.id := 0; Asset.mapping := {[ "./b.js" := 1 ]} |};
    {| Asset.filePath := b_js; Asset.code := "b = 1"; Asset.deps := [];
       Asset.id := 1; Asset.mapping := ∅ |} ].

Definition with_empty_world : world :=
  {| next_id := 2; files := with_empty; io_log := [EvRead b_js; EvRead a_js] |}.

(** Two builds of [chain], the second in the world the first one leaves. *)
Definition bundle_js : string := "/proj/dist/bundle.js".

(** What [build] writes for [dangling_child], and the world it leaves. *)
Definition dangling_child_bundle : string :=
  "modules 0:[/proj/example/a.js||{./b.js=>1}];1:[/proj/example/b.js||{}]".

Definition dangling_child_world : world :=
  {| next_id := 2;
     files := <[bundle_js := dangling_child_bundle]> dangling_child;
     io_log := [EvWrite bundle_js dangling_child_bundle; EvRead b_js;
                EvRead a_js; EvRead "./bundle.ejs"] |}.

Definition first_bundle : string :=
  "modules 0:[/proj/example/a.js|b()|{./b.js=>1}];1:[/proj/example/b.js|c()|{}]".

Definition after_first_build : world :=
  {| next_id := 2;
     files := <[bundle_js := first_bundle]> chain;
     io_log := [EvWrite bundle_js first_bundle; EvRead b_js; EvRead a_js;
                EvRead "./bundle.ejs"] |}.

End Demo.

(** ** The traversal in the words of the specification

    Section 4.2 of the specification seeds a work queue with the root asset,
    takes the asset at the front, handles its specifiers as [forEach_deps]
    does, appends the children to the back, and continues until the queue is
    exhausted.  [front] is the position of the front of the work queue in
    the graph; the traversal need not end, hence the [fuel], and [None] is
    the answer when the fuel runs out. *)
Module SpecTraversal.
Section SpecTraversal.
Context `{Externals}.

Fixpoint drain (fuel front : nat) (graph : list Asset.t)
  : M (option (list Asset.t)) :=
  match fuel with
  | 0 => ret None
  | S fuel' =>
      match graph !! front with
      | None => ret (Some graph)
      | Some parent =>
          let! graph' := forEach_deps front (Asset.deps parent) graph in
          drain fuel' (S front) graph'
      end
  end.

Definition buildGraph (fuel : nat) (entryPath : string)
  : M (option (list Asset.t)) :=
  let! root := createAsset entryPath in
  drain fuel 0 [root].

End SpecTraversal.
End SpecTraversal.

(** ** Configuration discovery and the entry point

    [readConfigFile] and [init] look for a configuration module next to the
    program and merge what it exports into the default options. *)

(** The value a configuration module exports, as far as [build] looks at
    it: the properties [entry] and [output], and [path] and [filename] of
    [output]; a property is [None] when the object does not have it. *)
Module Config.
Record output_t : Type := mk_output {
  path : option string;
  filename : option string
}.

Record t : Type := mk {
  entry : option string;
  output : option output_t
}.

(** The object literal [{}]. *)
Definition empty : t := {| entry := None; output := None |}.
End Config.

(** What [readConfigFile] and [init] take from their surroundings.  A
    configuration module is taken to be plain data: loading it returns its
    export or throws, and does nothing else; the listing of the directory
    and the loading of a module are recorded in the log of the world. *)
Class ConfigEnv : Type := {
  (** [__dirname] *)
  dirname : string;
  (** [fs.readdirSync(dir)], the names in the order the system lists them *)
  readdirSync : string → list string;
  (** [path.join(dir, name)] *)
  path_join : string → string → string;
  (** [require(file)]: [Err] when it throws, [Ok None] when the export is
      falsy, [Ok (Some config)] otherwise *)
  require : string → result (option Config.t)
}.

(** [array.indexOf(x)], with [None] for [-1]; [i] is the index of the head
    of [l] in the array. *)
Fixpoint indexOf_from (i : nat) (x : string) (l : list string) : option nat :=
  match l with
  | [] => None
  | y :: l' => if decide (y = x) then Some i else indexOf_from (S i) x l'
  end.

Definition indexOf (x : string) (l : list string) : option nat :=
  indexOf_from 0 x l.

Definition configFilePaths : list string :=
  ["webpack.config.js"; "webpackfile.js"].

(** The string a template literal makes of a property that may be
    missing. *)
Definition interpolate (v : option string) : string :=
  default "undefined" v.

(** [Object.assign(target, source)] on the properties that [build] reads:
    a property of [source] replaces the one of [target] as a whole.  The
    [path] and [filename] of the result stand for what the template literal
    of [build] makes of them. *)
Definition Object_assign (target : options) (source : Config.t) : options :=
  {| entry :=
       match Config.entry source with
       | Some file => Some file
       | None => entry target
       end;
     output :=
       match Config.output source with
       | Some o => {| Output.path := interpolate (Config.path o);
                      Output.filename := interpolate (Config.filename o) |}
       | None => output target
       end |}.

Section Configuration.
Context `{Externals} `{ConfigEnv}.

(** The loop of [readConfigFile] over [files], which it does not modify;
    [files] is what is left to visit.  Falling off the loop returns
    [undefined].  [readConfigFile_loop] and [readConfigFile] are what the
    call returns or throws; [readConfigFile_loop_io] and [readConfigFile_io]
    below are the call itself, with its file operations. *)
Fixpoint readConfigFile_loop (files : list string) : result (option Config.t) :=
  match files with
  | [] => Ok None
  | file :: files' =>
      match indexOf file configFilePaths with
      | Some index =>
          match configFilePaths !! index with
          | Some name =>
              match require (path_join dirname name) with
              | Err e => Err e
              | Ok (Some options) => Ok (Some options)
              | Ok None => readConfigFile_loop files'
              end
          | None => Err TypeError
          end
      | None => readConfigFile_loop files'
      end
  end.

Definition readConfigFile : result (option Config.t) :=
  readConfigFile_loop (readdirSync dirname).

Definition defaultOptions : options :=
  {| entry := None;
     output := {| Output.path := path_resolve dirname "dist";
                  Output.filename := "bundle.js" |} |}.

(** [fs.readdirSync(dir)]. *)
Definition readdirSync_io (dir : string) : M (list string) := λ w,
  (Ok (readdirSync dir),
   {| next_id := next_id w; files := files w;
      io_log := EvReaddir dir :: io_log w |}).

(** [require(file)]. *)
Definition require_io (file : string) : M (option Config.t) := λ w,
  (require file,
   {| next_id := next_id w; files := files w;
      io_log := EvRequire file :: io_log w |}).

Fixpoint readConfigFile_loop_io (files : list string) : M (option Config.t) :=
  match files with
  | [] => ret None
  | file :: files' =>
      match indexOf file configFilePaths with
      | Some index =>
          match configFilePaths !! index with
          | Some name =>
              let! options := require_io (path_join dirname name) in
              match options with
              | Some options => ret (Some options)
              | None => readConfigFile_loop_io files'
              end
          | None => throw TypeError
          end
      | None => readConfigFile_loop_io files'
      end
  end.

Definition readConfigFile_io : M (option Config.t) :=
  let! files := readdirSync_io dirname in
  readConfigFile_loop_io files.

Definition init : M unit :=
  let! config := readConfigFile_io in
  build (Object_assign defaultOptions (default Config.empty config)).

End Configuration.

(** ** The same traversal from another counter value *)

(** [a] with [c] added to its id and to the ids in its mapping. *)
Definition shift_asset (c : nat) (a : Asset.t) : Asset.t :=
  {| Asset.filePath := Asset.filePath a; Asset.code := Asset.code a;
     Asset.deps := Asset.deps a; Asset.id := c + Asset.id a;
     Asset.mapping := (λ v, c + v) <$> Asset.mapping a |}.

Definition shift_graph (c : nat) (r : result (list Asset.t))
  : result (list Asset.t) :=
  match r with
  | Ok graph => Ok (shift_asset c <$> graph)
  | Err e => Err e
  end.

(** [w] with the counter [c] further. *)
Definition bump (c : nat) (w : world) : world :=
  {| next_id := c + next_id w; files := files w; io_log := io_log w |}.

(** ** The same project under another base directory *)

(** The libraries of [E] in a process with another working directory and
    another disk: [resolve] is its [path.resolve] and [write] what its file
    system makes of a write. *)
Definition relocated (E : Externals)
    (resolve : string → string → string)
    (write : string → string → write_outcome) : Externals :=
  {| Ast := @Ast E;
     parser_parse := @parser_parse E;
     import_sources := @import_sources E;
     transformFromAst := @transformFromAst E;
     path_resolve := resolve;
     ejs_render := @ejs_render E;
     write_result := write |}.



(** ** A concrete installation to run [init] in

    The program lives in [/proj]; [listing] is what the directory lists and
    [modules] what loading a file gives (a file that is not there cannot be
    loaded). *)
Module DemoConfig.

#[local] Instance externals : Externals := {|
  Ast := list string;
  parser_parse source := Some (Demo.lines_from "" source);
  import_sources ast := omap Demo.import_of ast;
  transformFromAst ast :=
    Some (String.concat ";"
            (filter (λ line, Demo.import_of line = None) ast));
  path_resolve from to :=
    if String.prefix "/" from
    then from +:+ "/" +:+ Demo.strip_dot_slash to
    else "/proj/" +:+ Demo.strip_dot_slash from +:+ "/"
         +:+ Demo.strip_dot_slash to;
  ejs_render template data :=
    Some (template +:+ String.concat ";" (Demo.render_module <$> data));
  write_result _ _ := Written
|}.

Definition env (listing : list string)
    (modules : gmap string (option Config.t)) : ConfigEnv :=
  {| dirname := "/proj";
     readdirSync dir := if decide (dir = "/proj") then listing else [];
     path_join dir name := dir +:+ "/" +:+ name;
     require file :=
       match modules !! file with
       | Some export => Ok export
       | None => Err (ReadError file)
       end |}.

Definition with_entry : Config.t :=
  {| Config.entry := Some Demo.a_js; Config.output := None |}.

Definition with_path_only : Config.t :=
  {| Config.entry := Some Demo.a_js;
     Config.output := Some {| Config.path := Some "/proj/out";
                              Config.filename := None |} |}.


(** A directory without a configuration file. *)
Definition bare : ConfigEnv := env ["index.js"; "bundle.ejs"; "example"] ∅.

(** [webpackfile.js] is listed before [webpack.config.js]. *)
Definition both : ConfigEnv :=
  env ["index.js"; "webpackfile.js"; "webpack.config.js"]
      {[ "/proj/webpackfile.js" := Some with_path_only;
         "/proj/webpack.config.js" := Some with_entry ]}.

(** [webpack.config.js] exports a falsy value. *)
Definition falsy_first : ConfigEnv :=
  env ["webpack.config.js"; "webpackfile.js"]
      {[ "/proj/webpack.config.js" := None;
         "/proj/webpackfile.js" := Some with_entry ]}.

Definition only_config : ConfigEnv :=
  env ["index.js"; "webpack.config.js"]
      {[ "/proj/webpack.config.js" := Some with_entry ]}.

Definition path_only : ConfigEnv :=
  env ["index.js"; "webpack.config.js"]
      {[ "/proj/webpack.config.js" := Some with_path_only ]}.


(** [a.js] imports the specifier [__proto__]. *)
Definition proto : gmap string string :=
  {[ "./bundle.ejs" := Demo.template;
     Demo.a_js := "import '__proto__'";
     "/proj/example/__proto__" := "p = 1" ]}.

Definition proto_graph : list Asset.t :=
  [ {| Asset.filePath := Demo.a_js; Asset.code := "";
       Asset.deps := ["__proto__"]; Asset.id := 0; Asset.mapping := ∅ |};
    {| Asset.filePath := "/proj/example/__proto__"; Asset.code := "p = 1";
       Asset.deps := []; Asset.id := 1; Asset.mapping := ∅ |} ].

Definition proto_world : world :=
  {| next_id := 2; files := proto;
     io_log := [EvRead "/proj/example/__proto__"; EvRead Demo.a_js] |}.

(** What [createGraph] returns for [Demo.twice]. *)
Definition twice_graph : list Asset.t :=
  [ {| Asset.filePath := Demo.a_js; Asset.code := "";
       Asset.deps := ["./b.js"; "./b.js"]; Asset.id := 0;
       Asset.mapping := {[ "./b.js" := 2 ]} |};
    {| Asset.filePath := Demo.b_js; Asset.code := "b = 1";
       Asset.deps := []; Asset.id := 1; Asset.mapping := ∅ |};
    {| Asset.filePath := Demo.b_js; Asset.code := "b = 1";
       Asset.deps := []; Asset.id := 2; Asset.mapping := ∅ |} ].

Definition twice_world : world :=
  {| next_id := 3; files := Demo.twice;
     io_log := [EvRead Demo.b_js; EvRead Demo.b_js; EvRead Demo.a_js] |}.

(** The world [build] leaves for [Demo.dangling]. *)
Definition dangling_world : world :=
  {| next_id := 1; files := Demo.dangling;
     io_log := [EvRead "/proj/example/missing.js"; EvRead Demo.a_js;
                EvRead "./bundle.ejs"] |}.

(** The world [init] leaves for [Demo.chain] with the bundle at [out],
    when the directory lists [index.js] and [webpack.config.js]. *)
Definition built (out : string) : world :=
  {| next_id := 2;
     files := <[out := Demo.first_bundle]> Demo.chain;
     io_log := [EvWrite out Demo.first_bundle; EvRead Demo.b_js;
                EvRead Demo.a_js; EvRead "./bundle.ejs";
                EvRequire "/proj/webpack.config.js"; EvReaddir "/proj"] |}.

(** The libraries of [Demo] on a disk that fails every write after it has
    emptied the target. *)
Definition full_disk : Externals :=
  relocated Demo.externals (@path_resolve Demo.externals)
    (λ _ _, WriteFailed (Some "")).

(** The world [build] leaves for [Demo.chain] on that disk. *)
Definition full_disk_world : world :=
  {| next_id := 2;
     files := <[Demo.bundle_js := ""]> Demo.chain;
     io_log := [EvWrite Demo.bundle_js Demo.first_bundle; EvRead Demo.b_js;
                EvRead Demo.a_js; EvRead "./bundle.ejs"] |}.











(** [a.js] imports [b.js], a file that does not exist, and [c.js]. *)
Definition broken : gmap string string :=
  {[ "./bundle.ejs" := Demo.template;
     Demo.a_js := "import './b.js'" +:+ String Demo.newline
                    ("import './missing.js'" +:+ String Demo.newline
                       "import './c.js'");
     Demo.b_js := "b = 1";
     Demo.c_js := "c = 1" ]}.

End DemoConfig.

(** * Properties *)

(** ** The monad *)

Lemma bind_Ok_inv {A B} (c : M A) (k : A → M B) w b w' :
  bind c k w = (Ok b, w') →
  ∃ a w1, c w = (Ok a, w1) ∧ k a w1 = (Ok b, w').
Proof.
  unfold bind. destruct (c w) as [[a|e] w1]; [eauto | discriminate].
Qed.

Lemma bind_Err_inv {A B} (c : M A) (k : A → M B) w e w' :
  bind c k w = (Err e, w') →
  c w = (Err e, w') ∨ ∃ a w1, c w = (Ok a, w1) ∧ k a w1 = (Err e, w').
Proof.
  unfold bind. destruct (c w) as [[a|e1] w1]; [eauto | intros [= -> ->]; eauto].
Qed.

Lemma bind_Ok_eq {A B} (c : M A) (k : A → M B) w a w1 :
  c w = (Ok a, w1) → bind c k w = k a w1.
Proof. unfold bind. by intros ->. Qed.

Lemma bind_Err_eq {A B} (c : M A) (k : A → M B) w e w1 :
  c w = (Err e, w1) → bind c k w = (Err e, w1).
Proof. unfold bind. by intros ->. Qed.

Lemma bind_assoc {A B C} (c : M A) (k : A → M B) (k' : B → M C) w :
  bind (bind c k) k' w = bind c (λ a, bind (k a) k') w.
Proof. unfold bind. by destruct (c w) as [[a|e] w1]. Qed.

(** ** Extraction of one asset *)

Section Extraction.
Context `{Externals}.

Lemma createAsset_Ok_inv file w a w' :
  createAsset file w = (Ok a, w') →
  ∃ source ast code,
    files w !! file = Some source ∧ parser_parse source = Some ast ∧
    transformFromAst ast = Some code ∧
    a = {| Asset.filePath := file; Asset.code := code;
           Asset.deps := import_sources ast; Asset.id := next_id w;
           Asset.mapping := ∅ |} ∧
    w' = after_extract file w.
Proof.
  unfold createAsset, bind, readFileSync, or_throw, post_increment_id, ret, throw.
  destruct (files w !! file) as [source|] eqn:Hf; [|discriminate].
  destruct (parser_parse source) as [ast|] eqn:Hp; [|discriminate].
  destruct (transformFromAst ast) as [code|] eqn:Ht; [|discriminate].
  intros [= <- <-]. by exists source, ast, code.
Qed.

Lemma createAsset_Ok_intro file w source ast code :
  files w !! file = Some source → parser_parse source = Some ast →
  transformFromAst ast = Some code →
  createAsset file w =
    (Ok {| Asset.filePath := file; Asset.code := code;
           Asset.deps := import_sources ast; Asset.id := next_id w;
           Asset.mapping := ∅ |}, after_extract file w).
Proof.
  intros Hf Hp Ht.
  unfold createAsset, bind, readFileSync, or_throw, post_increment_id, ret, throw.
  by rewrite Hf, Hp, Ht.
Qed.

Lemma createAsset_Err_inv file w e w' :
  createAsset file w = (Err e, w') →
  w' = after_read file w ∧
  (e = ReadError file ∧ files w !! file = None
   ∨ e = ParseError file ∨ e = TransformError file).
Proof.
  unfold createAsset, bind, readFileSync, or_throw, post_increment_id, ret, throw.
  destruct (files w !! file) as [source|] eqn:Hf; [|intros [= <- <-]; eauto].
  destruct (parser_parse source) as [ast|] eqn:Hp; [|intros [= <- <-]; eauto].
  destruct (transformFromAst ast) as [code|]; [discriminate|].
  intros [= <- <-]; eauto.
Qed.

Lemma createAsset_missing file w :
  files w !! file = None →
  createAsset file w = (Err (ReadError file), after_read file w).
Proof.
  intros Hf. unfold createAsset, bind, readFileSync. by rewrite Hf.
Qed.

End Extraction.

(** ** One pass of [forEach] over the specifiers of an asset *)

Lemma truthy_nonempty s : truthy s = true ↔ s ≠ "".
Proof. destruct s; simpl; split; congruence. Qed.

Lemma truthy_empty s : truthy s = false ↔ s = "".
Proof. destruct s; simpl; split; congruence. Qed.

Lemma nonempty_deps_cons_true s ds :
  truthy s = true → nonempty_deps (s :: ds) = s :: nonempty_deps ds.
Proof.
  intros Hs. unfold nonempty_deps. rewrite filter_cons_True; [done|].
  by apply truthy_nonempty.
Qed.

Lemma nonempty_deps_cons_false s ds :
  truthy s = false → nonempty_deps (s :: ds) = nonempty_deps ds.
Proof.
  intros Hs%truthy_empty. unfold nonempty_deps.
  rewrite filter_cons_False; [done|]. intros Hne. by apply Hne.
Qed.

Lemma alter_at (f : Asset.t → Asset.t) (queue : list Asset.t) i a :
  queue !! i = Some a → alter f i queue = <[i := f a]> queue.
Proof.
  intros Hi. apply list_eq. intros j.
  destruct (decide (i = j)) as [<-|Hne].
  - rewrite list_lookup_alter_eq, Hi, list_lookup_insert_eq; [done|].
    by eapply lookup_lt_Some.
  - by rewrite list_lookup_alter_ne, list_lookup_insert_ne.
Qed.

Lemma reads_of_cons p ps : reads_of (p :: ps) = reads_of ps ++ [EvRead p].
Proof. unfold reads_of. by rewrite fmap_cons, reverse_cons. Qed.

Section Traversal.
Context `{Externals}.

(** A successful pass over [ds] appends one freshly extracted child per
    non-empty specifier, numbered from the counter on, and touches the
    queue nowhere else than in the mapping of [queue[i]]. *)
Lemma forEach_deps_Ok_inv ds : ∀ i queue a w queue' w',
  queue !! i = Some a →
  forEach_deps i ds queue w = (Ok queue', w') →
  ∃ children,
    queue' =
      <[i := with_mapping a (record_deps ds (next_id w) (Asset.mapping a))]> queue
      ++ children ∧
    Asset.filePath <$> children = path_resolve "./example" <$> nonempty_deps ds ∧
    Asset.id <$> children = seq (next_id w) (length children) ∧
    Forall (λ c, Asset.mapping c = ∅) children ∧
    w' = {| next_id := next_id w + length children; files := files w;
            io_log := reads_of (Asset.filePath <$> children) ++ io_log w |}.
Proof.
  induction ds as [|s ds IH]; intros i queue a w queue' w' Hi Hrun; simpl in Hrun.
  - injection Hrun as <- <-. exists []. simpl.
    split_and!; try done.
    + rewrite app_nil_r, list_insert_id; [done|]. by destruct a.
    + destruct w; simpl. f_equal. lia.
  - destruct (truthy s) eqn:Hs.
    + apply bind_Ok_inv in Hrun as (c & w1 & Hc & Hrun).
      apply createAsset_Ok_inv in Hc as (source & ast & code & _ & _ & _ & -> & ->).
      simpl in Hrun. rewrite (alter_at _ _ _ _ Hi) in Hrun.
      eapply IH in Hrun as (children & -> & Hpaths & Hids & Hmaps & ->).
      2:{ rewrite lookup_app_l by (rewrite length_insert; by eapply lookup_lt_Some).
          apply list_lookup_insert_eq. by eapply lookup_lt_Some. }
      eexists (_ :: children). split_and!.
      * simpl. rewrite insert_app_l by (rewrite length_insert; by eapply lookup_lt_Some).
        rewrite list_insert_insert_eq, Hs, <- app_assoc. done.
      * rewrite nonempty_deps_cons_true by done.
        rewrite !fmap_cons, Hpaths. done.
      * rewrite fmap_cons, Hids. done.
      * by constructor.
      * rewrite fmap_cons, reads_of_cons, <- app_assoc.
        cbn [length next_id files io_log after_extract Asset.filePath app].
        f_equal. lia.
    + rewrite nonempty_deps_cons_false by done.
      cbn [record_deps]. rewrite Hs. by eapply IH.
Qed.

End Traversal.

(** ** The graph of [createGraph] and the bundle of [build] *)

Section Graph.
Context `{Externals}.

(** The loop of [createGraph] runs its body for [i = 0] only, so a graph
    that is returned consists of the entry asset, with the mapping recorded
    for its own specifiers, followed by one child per non-empty specifier of
    the entry asset. *)
Lemma createGraph_Ok_inv entry w graph w' :
  createGraph entry w = (Ok graph, w') →
  ∃ mainAsset children,
    createAsset entry w = (Ok mainAsset, after_extract entry w) ∧
    graph =
      with_mapping mainAsset
        (record_deps (Asset.deps mainAsset) (S (next_id w)) ∅) :: children ∧
    Asset.filePath <$> children =
      path_resolve "./example" <$> nonempty_deps (Asset.deps mainAsset) ∧
    Asset.id <$> children = seq (S (next_id w)) (length children) ∧
    Forall (λ c, Asset.mapping c = ∅) children ∧
    w' = {| next_id := S (next_id w) + length children; files := files w;
            io_log := reads_of (entry :: (Asset.filePath <$> children))
                      ++ io_log w |}.
Proof.
  unfold createGraph. intros Hrun.
  apply bind_Ok_inv in Hrun as (mainAsset & w1 & Hmain & Hrun).
  pose proof Hmain as Hmain'.
  apply createAsset_Ok_inv in Hmain' as (source & ast & code & _ & _ & _ & Ha & ->).
  cbn [length Nat.sub for_i lookup list_lookup] in Hrun.
  apply bind_Ok_inv in Hrun as (queue' & w2 & Hpass & Hrun).
  injection Hrun as <- <-.
  eapply forEach_deps_Ok_inv in Hpass as (children & -> & Hpaths & Hids & Hmaps & ->);
    [|reflexivity].
  exists mainAsset, children. split_and!; try done.
  - rewrite Ha. done.
  - rewrite reads_of_cons, <- app_assoc. done.
Qed.

(** [build] succeeds exactly by reading the template, building the graph
    of the entry with the counter as it finds it, rendering and writing. *)
Lemma build_Ok_inv opts w w' :
  build opts w = (Ok tt, w') →
  ∃ file template graph w2 code,
    entry opts = Some file ∧ file ≠ "" ∧
    files w !! "./bundle.ejs" = Some template ∧
    createGraph file (after_read "./bundle.ejs" w) = (Ok graph, w2) ∧
    ejs_render template (TemplateData.of_asset <$> graph) = Some code ∧
    w' = {| next_id := next_id w2;
            files := <[Output.path (output opts) +:+ "/"
                       +:+ Output.filename (output opts) := code]> (files w2);
            io_log := EvWrite (Output.path (output opts) +:+ "/"
                               +:+ Output.filename (output opts)) code
                      :: io_log w2 |}.
Proof.
  unfold build. destruct (entry opts) as [file|]; [|discriminate].
  destruct (truthy file) eqn:Hentry; [|discriminate].
  intros Hrun.
  apply bind_Ok_inv in Hrun as (template & w1 & Hread & Hrun).
  apply bind_Ok_inv in Hrun as (graph & w2 & Hgraph & Hrun).
  apply bind_Ok_inv in Hrun as (code & w3 & Hrender & Hrun).
  unfold readFileSync in Hread.
  destruct (files w !! "./bundle.ejs") as [t|] eqn:Ht; [|discriminate].
  injection Hread as -> <-.
  unfold or_throw in Hrender.
  destruct (ejs_render template _) as [c|] eqn:Hc; [|discriminate].
  injection Hrender as -> <-.
  unfold writeFileSync in Hrun.
  destruct (write_result _ _) as [|[remains|]]; [|discriminate..].
  injection Hrun as <-.
  exists file, template, graph, w2, code.
  split_and!; try done. by apply truthy_nonempty.
Qed.

End Graph.

(** ** Framing *)

Lemma world_eta w n :
  next_id w = n → w = {| next_id := n; files := files w; io_log := io_log w |}.
Proof. destruct w; simpl; by intros ->. Qed.

Lemma framed_ret {A} (a : A) : framed (ret a).
Proof.
  intros wA. exists []. split_and!; try done.
  intros wB Hid _. unfold ret. simpl. f_equal. by apply world_eta.
Qed.

Lemma framed_throw {A} e : framed (@throw A e).
Proof.
  intros wA. exists []. split_and!; try done.
  intros wB Hid _. unfold throw. simpl. f_equal. by apply world_eta.
Qed.

Lemma framed_or_throw {A} e (o : option A) : framed (or_throw e o).
Proof. destruct o; [apply framed_ret | apply framed_throw]. Qed.

Lemma framed_readFileSync file : framed (readFileSync file).
Proof.
  intros wA. exists [EvRead file]. unfold readFileSync.
  split_and!.
  - by repeat constructor.
  - by destruct (files wA !! file).
  - by destruct (files wA !! file).
  - intros wB Hid Hfiles. rewrite Hfiles, Hid by (by apply list_elem_of_singleton).
    by destruct (files wA !! file).
Qed.

Lemma framed_post_increment_id : framed post_increment_id.
Proof.
  intros wA. exists []. split_and!; try done.
  intros wB Hid _. unfold post_increment_id. simpl. by rewrite Hid.
Qed.

Lemma framed_bind {A B} (c : M A) (k : A → M B) :
  framed c → (∀ a, framed (k a)) → framed (bind c k).
Proof.
  intros Hc Hk wA. destruct (Hc wA) as (new1 & Hr1 & Hlog1 & Hfs1 & Hsame1).
  unfold bind. destruct (c wA) as [[a|e] wA1] eqn:HcA; simpl in *.
  - destruct (Hk a wA1) as (new2 & Hr2 & Hlog2 & Hfs2 & Hsame2).
    exists (new2 ++ new1). split_and!.
    + by apply Forall_app.
    + by rewrite Hlog2, Hlog1, app_assoc.
    + by rewrite Hfs2.
    + intros wB Hid Hfiles. rewrite Hsame1; [|done|].
      2:{ intros p Hp. apply Hfiles, elem_of_app. by right. }
      rewrite Hsame2; [|done|].
      2:{ intros p Hp. simpl. rewrite Hfs1. apply Hfiles, elem_of_app. by left. }
      simpl. by rewrite app_assoc.
  - exists new1. split_and!; try done.
    intros wB Hid Hfiles. by rewrite Hsame1.
Qed.

Section Framing.
Context `{Externals}.

Lemma framed_createAsset file : framed (createAsset file).
Proof.
  unfold createAsset.
  apply framed_bind; [apply framed_readFileSync|]; intros source.
  apply framed_bind; [apply framed_or_throw|]; intros ast.
  apply framed_bind; [apply framed_or_throw|]; intros code.
  apply framed_bind; [apply framed_post_increment_id|]; intros n.
  apply framed_ret.
Qed.

Lemma framed_forEach_deps i ds : ∀ queue, framed (forEach_deps i ds queue).
Proof.
  induction ds as [|s ds IH]; intros queue; simpl.
  - apply framed_ret.
  - destruct (truthy s); [|apply IH].
    apply framed_bind; [apply framed_createAsset|]. intros c. apply IH.
Qed.

Lemma framed_for_i remaining : ∀ i queue, framed (for_i remaining i queue).
Proof.
  induction remaining as [|r IH]; intros i queue; simpl.
  - apply framed_ret.
  - destruct (queue !! i); [|apply framed_throw].
    apply framed_bind; [apply framed_forEach_deps|]. intros queue'. apply IH.
Qed.

Lemma framed_createGraph file : framed (createGraph file).
Proof.
  unfold createGraph.
  apply framed_bind; [apply framed_createAsset|]. intros a. apply framed_for_i.
Qed.

Lemma framed_bundle_text file : framed (bundle_text file).
Proof.
  unfold bundle_text.
  apply framed_bind; [apply framed_readFileSync|]; intros template.
  apply framed_bind; [apply framed_createGraph|]; intros graph.
  apply framed_or_throw.
Qed.

Lemma build_eq opts file w :
  entry opts = Some file → file ≠ "" →
  build opts w = bind (bundle_text file) (writeFileSync (output_file opts)) w.
Proof.
  intros Hentry Hfile%truthy_nonempty. unfold build, bundle_text.
  rewrite Hentry, Hfile. unfold bind.
  destruct (readFileSync "./bundle.ejs" w) as [[template|e] w1]; [|done].
  destruct (createGraph file w1) as [[graph|e] w2]; [|done].
  by destruct (or_throw _ _ w2) as [[code|e] w3].
Qed.

End Framing.

(** ** Failures *)

Section Failures.
Context `{Externals}.

Lemma createAsset_extractable file w :
  extractable (files w) file →
  ∃ a, createAsset file w = (Ok a, after_extract file w).
Proof.
  intros (source & ast & code & Hf & Hp & Ht).
  eexists. by eapply createAsset_Ok_intro.
Qed.

Lemma createAsset_files file w :
  files (createAsset file w).2 = files w.
Proof.
  destruct (framed_createAsset file w) as (new & _ & _ & Hfs & _). done.
Qed.

(** A pass over specifiers one of which resolves to a missing file fails. *)
Lemma forEach_deps_fails i ds s : ∀ queue w,
  s ∈ ds → s ≠ "" → files w !! path_resolve "./example" s = None →
  ∃ e w', forEach_deps i ds queue w = (Err e, w').
Proof.
  induction ds as [|s0 ds IH]; intros queue w Hin Hs Hmiss.
  - by apply elem_of_nil in Hin.
  - cbn [forEach_deps]. destruct (truthy s0) eqn:Hs0.
    + unfold bind.
      destruct (createAsset (path_resolve "./example" s0) w)
        as [[c|e] w1] eqn:Hc; [|eauto].
      apply elem_of_cons in Hin as [->|Hin].
      * rewrite createAsset_missing in Hc by done. discriminate.
      * apply IH; [done..|].
        pose proof (createAsset_files (path_resolve "./example" s0) w) as Hfs.
        rewrite Hc in Hfs. simpl in Hfs. by rewrite Hfs.
    + apply elem_of_cons in Hin as [->|Hin].
      * apply truthy_empty in Hs0. done.
      * by apply IH.
Qed.

(** It fails with the read error of the first specifier that cannot be
    extracted when that one resolves to a missing file. *)
Lemma forEach_deps_missing i pre s post : ∀ queue w,
  Forall (λ s', s' ≠ "" → extractable (files w) (path_resolve "./example" s')) pre →
  s ≠ "" → files w !! path_resolve "./example" s = None →
  ∃ w', forEach_deps i (pre ++ s :: post) queue w
        = (Err (ReadError (path_resolve "./example" s)), w').
Proof.
  induction pre as [|s0 pre IH]; intros queue w Hpre Hs Hmiss.
  - cbn [app forEach_deps]. apply truthy_nonempty in Hs. rewrite Hs.
    unfold bind. rewrite createAsset_missing by done. eauto.
  - apply Forall_cons in Hpre as [Hs0 Hpre].
    cbn [app forEach_deps]. destruct (truthy s0) eqn:Ht; [|by apply IH].
    apply truthy_nonempty in Ht.
    destruct (createAsset_extractable _ w (Hs0 Ht)) as [c Hc].
    rewrite (bind_Ok_eq _ _ _ _ _ Hc). by apply IH.
Qed.

(** What [build] did before it wrote is what [bundle_text] does: a failure
    there is the failure of [build], and nothing was written. *)
Lemma bundle_text_Err opts file w e w' :
  entry opts = Some file → file ≠ "" →
  bundle_text file w = (Err e, w') →
  build opts w = (Err e, w') ∧
  files w' = files w ∧ ∃ new, io_log w' = new ++ io_log w ∧ Forall is_read new.
Proof.
  intros Hentry Hfile Hrun. rewrite (build_eq _ _ _ Hentry Hfile).
  split; [by apply bind_Err_eq|].
  destruct (framed_bundle_text file w) as (new & Hreads & Hlog & Hfs & _).
  rewrite Hrun in Hlog, Hfs. simpl in *. eauto.
Qed.

(** A build that fails has either failed before its write, and then has
    done nothing but read, or failed in the write, and then the target of
    the write is the one file that may have changed. *)
Lemma build_Err_cases opts w e w' :
  build opts w = (Err e, w') →
  (files w' = files w ∧
   ∃ new, io_log w' = new ++ io_log w ∧ Forall is_read new)
  ∨ (e = WriteError (output_file opts) ∧
     ∃ file code w1 remains,
       entry opts = Some file ∧
       bundle_text file w = (Ok code, w1) ∧
       write_result (output_file opts) code = WriteFailed remains ∧
       files w'
       = from_option (λ r, <[output_file opts := r]> (files w)) (files w)
           remains ∧
       io_log w' = EvWrite (output_file opts) code :: io_log w1).
Proof.
  destruct (entry opts) as [file|] eqn:Hentry.
  2:{ unfold build. rewrite Hentry. intros [= <- <-].
      left. split; [done|by exists []]. }
  destruct (truthy file) eqn:Hfile.
  2:{ unfold build. rewrite Hentry, Hfile. intros [= <- <-].
      left. split; [done|by exists []]. }
  apply truthy_nonempty in Hfile. intros Hrun. pose proof Hrun as Hbuild.
  rewrite (build_eq _ _ _ Hentry Hfile) in Hrun.
  apply bind_Err_inv in Hrun as [Hrun|(code & w1 & Htext & Hrun)].
  - left. by destruct (bundle_text_Err _ _ _ _ _ Hentry Hfile Hrun) as [_ ?].
  - right. destruct (framed_bundle_text file w) as (new & _ & _ & Hfs & _).
    rewrite Htext in Hfs. cbn [snd] in Hfs.
    unfold writeFileSync in Hrun.
    destruct (write_result (output_file opts) code) as [|[remains|]] eqn:Hout;
      [discriminate| |]; injection Hrun as <- <-.
    + split; [done|]. exists file, code, w1, (Some remains).
      split_and!; try done. cbn. by rewrite Hfs.
    + split; [done|]. exists file, code, w1, None.
      split_and!; try done.
Qed.

End Failures.

(** ** The mapping of a processed asset *)

Lemma obj_set_lookup_ne key value obj s :
  s ≠ key → obj_set key value obj !! s = obj !! s.
Proof.
  intros Hne. unfold obj_set. case_decide; [done|].
  apply lookup_insert_ne. congruence.
Qed.

Lemma obj_set_lookup_eq key value obj :
  key ≠ "__proto__" → obj_set key value obj !! key = Some value.
Proof.
  intros Hne. unfold obj_set. rewrite decide_False by done.
  apply lookup_insert_eq.
Qed.

(** Specifiers absent from the list leave their entry alone. *)
Lemma record_deps_notin ds s : ∀ n m,
  s ∉ ds → record_deps ds n m !! s = m !! s.
Proof.
  induction ds as [|s0 ds IH]; intros n m Hnotin; [done|].
  apply not_elem_of_cons in Hnotin as [Hne Hnotin].
  cbn [record_deps]. destruct (truthy s0); rewrite IH by done; [|done].
  by apply obj_set_lookup_ne.
Qed.

(** The entry of a specifier is the number given to its last occurrence. *)
Lemma record_deps_last pre s post : ∀ n m,
  s ≠ "" → s ≠ "__proto__" → s ∉ post →
  record_deps (pre ++ s :: post) n m !! s
  = Some (n + length (nonempty_deps pre)).
Proof.
  induction pre as [|s0 pre IH]; intros n m Hs Hproto Hpost.
  - cbn [app record_deps]. rewrite (proj2 (truthy_nonempty s) Hs).
    rewrite record_deps_notin by done.
    rewrite obj_set_lookup_eq by done. f_equal. simpl. lia.
  - cbn [app record_deps]. destruct (truthy s0) eqn:Hs0.
    + rewrite IH by done. rewrite nonempty_deps_cons_true by done.
      f_equal. simpl. lia.
    + rewrite IH by done. by rewrite nonempty_deps_cons_false.
Qed.

(** An entry made by the pass maps a specifier to the number given to one
    of its own occurrences. *)
Lemma record_deps_sound ds : ∀ n m s v,
  record_deps ds n m !! s = Some v →
  m !! s = Some v ∨ ∃ k, v = n + k ∧ nonempty_deps ds !! k = Some s.
Proof.
  induction ds as [|s0 ds IH]; intros n m s v Hlook; [by left|].
  cbn [record_deps] in Hlook. destruct (truthy s0) eqn:Hs0.
  - rewrite nonempty_deps_cons_true by done.
    apply IH in Hlook as [Hlook|(k & -> & Hk)].
    + unfold obj_set in Hlook. case_decide; [by left|].
      destruct (decide (s0 = s)) as [->|Hne].
      * rewrite lookup_insert_eq in Hlook. injection Hlook as <-.
        right. exists 0. split; [lia|done].
      * rewrite lookup_insert_ne in Hlook by done. by left.
    + right. exists (S k). split; [lia|done].
  - rewrite nonempty_deps_cons_false by done. by apply IH.
Qed.

Lemma nonempty_deps_app ds1 ds2 :
  nonempty_deps (ds1 ++ ds2) = nonempty_deps ds1 ++ nonempty_deps ds2.
Proof. apply filter_app. Qed.

Lemma nonempty_deps_middle pre s post :
  s ≠ "" →
  nonempty_deps (pre ++ s :: post) !! length (nonempty_deps pre) = Some s.
Proof.
  intros Hs. rewrite nonempty_deps_app.
  rewrite nonempty_deps_cons_true by (by apply truthy_nonempty).
  apply list_lookup_middle. done.
Qed.

Section EntryMapping.
Context `{Externals}.

(** The child in position [k] among the children of the root. *)
Lemma createGraph_child file w graph w' root k s :
  createGraph file w = (Ok graph, w') →
  graph !! 0 = Some root →
  nonempty_deps (Asset.deps root) !! k = Some s →
  ∃ child,
    graph !! S k = Some child ∧
    Asset.filePath child = path_resolve "./example" s ∧
    Asset.id child = S (next_id w) + k.
Proof.
  intros Hrun Hroot Hk.
  apply createGraph_Ok_inv in Hrun
    as (mainAsset & children & _ & -> & Hpaths & Hids & _ & _).
  injection Hroot as <-. cbn [with_mapping Asset.deps] in Hk.
  assert ((path_resolve "./example" <$> nonempty_deps (Asset.deps mainAsset)) !! k
          = Some (path_resolve "./example" s)) as Hpath
    by (by rewrite list_lookup_fmap, Hk).
  rewrite <- Hpaths, list_lookup_fmap in Hpath.
  destruct (children !! k) as [child|] eqn:Hchild; [|discriminate].
  injection Hpath as Hpath.
  exists child. split_and!; [done..|].
  assert ((Asset.id <$> children) !! k = Some (Asset.id child)) as Hid
    by (by rewrite list_lookup_fmap, Hchild).
  rewrite Hids in Hid. apply lookup_seq in Hid as [-> _]. done.
Qed.

(** For the entry asset the property of C2 holds: each of its non-empty
    specifiers (other than [__proto__]) is mapped to the id of a child in
    the graph, extracted from the path the specifier resolves to. *)
Lemma entry_mapping_defined file w graph w' root s :
  createGraph file w = (Ok graph, w') →
  graph !! 0 = Some root →
  s ∈ Asset.deps root → s ≠ "" → s ≠ "__proto__" →
  ∃ child,
    child ∈ graph ∧
    Asset.mapping root !! s = Some (Asset.id child) ∧
    Asset.filePath child = path_resolve "./example" s.
Proof.
  intros Hrun Hroot Hin Hs Hproto.
  apply list_elem_of_split_r in Hin as (pre & post & Hdeps & Hpost).
  destruct (createGraph_child file w graph w' root
              (length (nonempty_deps pre)) s Hrun Hroot)
    as (child & Hchild & Hpath & Hid).
  { rewrite Hdeps. by apply nonempty_deps_middle. }
  exists child. split_and!; [by eapply list_elem_of_lookup_2| |done].
  apply createGraph_Ok_inv in Hrun
    as (mainAsset & children & _ & -> & _ & _ & _ & _).
  injection Hroot as <-. cbn [with_mapping Asset.mapping Asset.deps] in *.
  rewrite Hdeps, record_deps_last by done. by rewrite Hid.
Qed.

(** For the entry asset the property of C10 holds: two occurrences of a
    specifier give two children with different ids, the mapping of the
    entry keeps the id of the child of the last occurrence, and no mapping
    in the graph refers to the child of the earlier one. *)
Lemma entry_mapping_last_occurrence file w graph w' root pre s mid post :
  createGraph file w = (Ok graph, w') →
  graph !! 0 = Some root →
  Asset.deps root = pre ++ s :: mid ++ s :: post →
  s ≠ "" → s ≠ "__proto__" → s ∉ post →
  ∃ earlier last,
    graph !! S (length (nonempty_deps pre)) = Some earlier ∧
    graph !! S (length (nonempty_deps (pre ++ s :: mid))) = Some last ∧
    Asset.filePath earlier = path_resolve "./example" s ∧
    Asset.filePath last = path_resolve "./example" s ∧
    Asset.id earlier ≠ Asset.id last ∧
    Asset.mapping root !! s = Some (Asset.id last) ∧
    ∀ A s', A ∈ graph → Asset.mapping A !! s' ≠ Some (Asset.id earlier).
Proof.
  intros Hrun Hroot Hdeps Hs Hproto Hpost.
  assert (truthy s = true) as Hts by (by apply truthy_nonempty).
  assert (length (nonempty_deps (pre ++ s :: mid))
          = length (nonempty_deps pre) + S (length (nonempty_deps mid))) as Hlen.
  { rewrite nonempty_deps_app, nonempty_deps_cons_true, length_app by done.
    done. }
  destruct (createGraph_child file w graph w' root
              (length (nonempty_deps pre)) s Hrun Hroot)
    as (earlier & Hearlier & Hpath1 & Hid1).
  { rewrite Hdeps. by apply nonempty_deps_middle. }
  destruct (createGraph_child file w graph w' root
              (length (nonempty_deps (pre ++ s :: mid))) s Hrun Hroot)
    as (last & Hlast & Hpath2 & Hid2).
  { rewrite Hdeps.
    replace (pre ++ s :: mid ++ s :: post) with ((pre ++ s :: mid) ++ s :: post)
      by (by rewrite <- app_assoc).
    by apply nonempty_deps_middle. }
  apply createGraph_Ok_inv in Hrun
    as (mainAsset & children & _ & -> & _ & _ & Hmaps & _).
  injection Hroot as <-. cbn [with_mapping Asset.mapping Asset.deps] in *.
  assert (record_deps (Asset.deps mainAsset) (S (next_id w)) ∅ !! s
          = Some (Asset.id last)) as Hmap.
  { rewrite Hdeps.
    replace (pre ++ s :: mid ++ s :: post) with ((pre ++ s :: mid) ++ s :: post)
      by (by rewrite <- app_assoc).
    rewrite record_deps_last by done. by rewrite Hid2. }
  exists earlier, last. split_and!; [done..|lia|done|].
  intros A s' HA Hlook. apply elem_of_cons in HA as [->|HA].
  - cbn [with_mapping Asset.mapping] in Hlook. pose proof Hlook as Hsound.
    apply record_deps_sound in Hsound as [Hsound|(k & Hk & Hocc)];
      [by rewrite lookup_empty in Hsound|].
    assert (k = length (nonempty_deps pre)) as -> by lia.
    rewrite Hdeps, nonempty_deps_middle in Hocc by done.
    injection Hocc as <-.
    rewrite Hmap in Hlook. injection Hlook as Hlook. lia.
  - rewrite Forall_forall in Hmaps. rewrite (Hmaps A HA) in Hlook.
    by rewrite lookup_empty in Hlook.
Qed.

End EntryMapping.

(** ** Builds in other worlds *)

Section Reproducible.
Context `{Externals}.


Lemma build_same_reads opts wA wB rA wA' :
  build opts wA = (rA, wA') →
  next_id wB = next_id wA →
  (∀ p, EvRead p ∈ io_log wA' → files wB !! p = files wA !! p) →
  ∃ wB', build opts wB = (rA, wB') ∧
         next_id wB' = next_id wA' ∧
         (rA = Ok tt →
          files wB' !! output_file opts = files wA' !! output_file opts).
Proof.
  intros Hrun Hid Hagree.
  destruct (entry opts) as [file|] eqn:Hentry.
  2:{ unfold build in *. rewrite Hentry in *. injection Hrun as <- <-.
      eexists. split_and!; [done..|discriminate]. }
  destruct (truthy file) eqn:Hfile.
  2:{ unfold build in *. rewrite Hentry, Hfile in *. injection Hrun as <- <-.
      eexists. split_and!; [done..|discriminate]. }
  apply truthy_nonempty in Hfile.
  rewrite (build_eq _ _ wA Hentry Hfile) in Hrun.
  rewrite (build_eq _ _ wB Hentry Hfile).
  destruct (framed_bundle_text file wA) as (new & _ & Hlog & Hfs & Hsame).
  unfold bind in *.
  destruct (bundle_text file wA) as [[code|e] wA1] eqn:HA; simpl in *.
  - assert (∀ p, EvRead p ∈ new → files wB !! p = files wA !! p) as Hnew.
    { intros p Hp. apply Hagree.
      assert (∃ ev, io_log wA' = ev :: io_log wA1) as [ev ->].
      { unfold writeFileSync in Hrun.
        destruct (write_result _ _) as [|[remains|]];
          injection Hrun as <- <-; eauto. }
      rewrite Hlog. apply elem_of_cons. right. apply elem_of_app. by left. }
    rewrite (Hsame wB Hid Hnew). unfold writeFileSync in *.
    destruct (write_result (output_file opts) code) as [|[remains|]];
      injection Hrun as <- <-; eexists; (split_and!; [done..|]);
      [|discriminate..].
    intros _. simpl. by rewrite !lookup_insert_eq.
  - injection Hrun as <- <-.
    rewrite (Hsame wB Hid).
    2:{ intros p Hp. apply Hagree. rewrite Hlog. apply elem_of_app. by left. }
    eexists. split_and!; [done..|discriminate].
Qed.

End Reproducible.

(** ** A missing dependency of the entry file *)

Section MissingDependency.
Context `{Externals}.

(** When a non-empty specifier of the entry file resolves to a file that
    does not exist, [build] throws:
    the world it leaves has the files it started with and it did nothing
    but read, so no bundle, partial or not, was written.  The error is the
    read error of that file when the template and everything before the
    specifier could be processed. *)
Lemma entry_missing_dependency_aborts opts file w source ast pre s post :
  entry opts = Some file → file ≠ "" →
  files w !! file = Some source →
  parser_parse source = Some ast →
  import_sources ast = pre ++ s :: post →
  s ≠ "" →
  files w !! path_resolve "./example" s = None →
  ∃ e w',
    build opts w = (Err e, w') ∧
    files w' = files w ∧
    (∃ new, io_log w' = new ++ io_log w ∧ Forall is_read new) ∧
    (is_Some (files w !! "./bundle.ejs") →
     is_Some (transformFromAst ast) →
     Forall (λ s', s' ≠ "" →
                   extractable (files w) (path_resolve "./example" s')) pre →
     e = ReadError (path_resolve "./example" s)).
Proof.
  intros Hentry Hfile Hf Hp Hdeps Hs Hmiss.
  assert (∃ e w', bundle_text file w = (Err e, w')) as (e & w' & Hrun).
  { unfold bundle_text, bind at 1, readFileSync.
    destruct (files w !! "./bundle.ejs") as [template|]; [|eauto].
    unfold bind at 1. unfold createGraph, bind at 1.
    destruct (transformFromAst ast) as [code|] eqn:Ht.
    - rewrite (createAsset_Ok_intro file _ source ast code) by done.
      cbn [length Nat.sub for_i lookup list_lookup Asset.deps].
      rewrite Hdeps. unfold bind at 1.
      edestruct (forEach_deps_fails 0 (pre ++ s :: post) s) as (e & w' & ->);
        [| exact Hs | | eauto].
      + apply elem_of_app. right. by left.
      + done.
    - destruct (createAsset file _) as [[a|e] w1] eqn:Ha; [|eauto].
      apply createAsset_Ok_inv in Ha as (? & ? & ? & Hf' & Hp' & Ht' & _).
      simpl in Hf'. congruence. }
  exists e, w'.
  destruct (bundle_text_Err opts _ _ _ _ Hentry Hfile Hrun) as (Hbuild & Hfs & Hlog).
  split_and!; [done..|].
  intros [template Htpl] [code Ht] Hpre.
  unfold bundle_text, bind at 1, readFileSync in Hrun.
  rewrite Htpl in Hrun.
  unfold bind at 1 in Hrun. unfold createGraph, bind at 1 in Hrun.
  rewrite (createAsset_Ok_intro file _ source ast code) in Hrun by done.
  cbn [length Nat.sub for_i lookup list_lookup Asset.deps] in Hrun.
  rewrite Hdeps in Hrun. unfold bind at 1 in Hrun.
  edestruct (forEach_deps_missing 0 pre s post) as (w1 & Hpass);
    [| exact Hs | | rewrite Hpass in Hrun].
  - exact Hpre.
  - done.
  - congruence.
Qed.

End MissingDependency.

(** ** The program on the concrete projects *)

Lemma createGraph_chain :
  createGraph (H:=Demo.externals) Demo.a_js (initial_world Demo.chain)
  = (Ok Demo.chain_graph, Demo.chain_world).
Proof. vm_compute. reflexivity. Qed.

Lemma createGraph_with_empty :
  createGraph (H:=Demo.externals) Demo.a_js (initial_world Demo.with_empty)
  = (Ok Demo.with_empty_graph, Demo.with_empty_world).
Proof. vm_compute. reflexivity. Qed.

Lemma build_dangling :
  build (H:=Demo.externals) Demo.opts (initial_world Demo.dangling)
  = (Err (ReadError "/proj/example/missing.js"),
     {| next_id := 1; files := Demo.dangling;
        io_log := [EvRead "/proj/example/missing.js"; EvRead Demo.a_js;
                   EvRead "./bundle.ejs"] |}).
Proof. vm_compute. reflexivity. Qed.

(** The traversal of the specification, which continues until the queue is
    exhausted, does return the three assets of C1 on the same chain. *)
Lemma spec_traversal_linear_chain :
  (SpecTraversal.buildGraph (H:=Demo.externals) 4 Demo.a_js
     (initial_world Demo.chain)).1
  = Ok (Some Demo.chain_graph_spec).
Proof. vm_compute. reflexivity. Qed.

(** On [nested_twice] it creates a child for each occurrence of [./c.js]
    in [b.js] and keeps the id of the last one in the mapping of [b]. *)
Lemma spec_traversal_nested_twice :
  (SpecTraversal.buildGraph (H:=Demo.externals) 5 Demo.a_js
     (initial_world Demo.nested_twice)).1
  = Ok (Some
      [ {| Asset.filePath := Demo.a_js; Asset.code := "";
           Asset.deps := ["./b.js"]; Asset.id := 0;
           Asset.mapping := {[ "./b.js" := 1 ]} |};
        {| Asset.filePath := Demo.b_js; Asset.code := "";
           Asset.deps := ["./c.js"; "./c.js"]; Asset.id := 1;
           Asset.mapping := {[ "./c.js" := 3 ]} |};
        {| Asset.filePath := Demo.c_js; Asset.code := "c = 1";
           Asset.deps := []; Asset.id := 2; Asset.mapping := ∅ |};
        {| Asset.filePath := Demo.c_js; Asset.code := "c = 1";
           Asset.deps := []; Asset.id := 3; Asset.mapping := ∅ |} ]).
Proof. vm_compute. reflexivity. Qed.

(** On [dangling_child] it fails with the read error of the missing file. *)
Lemma spec_traversal_dangling_child :
  (SpecTraversal.buildGraph (H:=Demo.externals) 3 Demo.a_js
     (initial_world Demo.dangling_child)).1
  = Err (ReadError "/proj/example/missing.js").
Proof. vm_compute. reflexivity. Qed.

(** ** The same project under another base directory *)



Section Relocation.
Variable E : Externals.
Variable resolve' : string → string → string.
Variable write' : string → string → write_outcome.




End Relocation.


(** * The claims of the specification *)

(** C1.  On the linear chain ([a.js] imports [b.js], [b.js] imports
    [c.js], [c.js] imports nothing) [createGraph] returns two assets, not
    three: [a] with id 0 and the mapping of [./b.js] to 1, and [b] with id 1
    and an empty mapping although it imports [./c.js].  The loop bound was
    read while the queue held the entry only, so the traversal stops with
    [b] still unprocessed in the queue, and [c.js] is never read. *)
Theorem linear_chain_stops_after_entry :
  createGraph (H:=Demo.externals) Demo.a_js (initial_world Demo.chain)
    = (Ok Demo.chain_graph, Demo.chain_world) ∧
  length Demo.chain_graph = 2 ∧
  Asset.filePath <$> Demo.chain_graph = [Demo.a_js; Demo.b_js] ∧
  Asset.id <$> Demo.chain_graph = [0; 1] ∧
  Asset.deps <$> Demo.chain_graph = [["./b.js"]; ["./c.js"]] ∧
  Asset.mapping <$> Demo.chain_graph = [{[ "./b.js" := 1 ]}; ∅] ∧
  EvRead Demo.c_js ∉ io_log Demo.chain_world.
Proof.
  split_and!; [exact createGraph_chain | reflexivity.. |].
  intros Hin. repeat (apply elem_of_cons in Hin as [Hin|Hin]; [discriminate|]).
  by apply elem_of_nil in Hin.
Qed.

(** C2.  In the graph that [createGraph] returns for the linear chain, the
    asset of [b.js] has the non-empty specifier [./c.js] among its [deps]
    and no entry for it in its mapping. *)
Theorem chain_child_specifier_unmapped :
  ∃ graph w' A,
    createGraph (H:=Demo.externals) Demo.a_js (initial_world Demo.chain)
      = (Ok graph, w') ∧
    A ∈ graph ∧ "./c.js" ∈ Asset.deps A ∧ "./c.js" ≠ "" ∧
    Asset.mapping A !! "./c.js" = None.
Proof.
  eexists Demo.chain_graph, Demo.chain_world, _.
  split_and!; [exact createGraph_chain | | | discriminate | ].
  - apply elem_of_cons. right. apply elem_of_cons. left. reflexivity.
  - apply elem_of_cons. left. reflexivity.
  - reflexivity.
Qed.

(** C3.  The ids of the assets of a graph that [createGraph] returns, when
    it starts with the counter at 0 as the program does, are
    0, 1, ..., N-1 in this order, N being the number of assets: every id
    of the range occurs once, there is no gap and no duplicate. *)
Theorem graph_ids_contiguous `{Externals} file w graph w' :
  next_id w = 0 →
  createGraph file w = (Ok graph, w') →
  Asset.id <$> graph = seq 0 (length graph).
Proof.
  intros Hid Hrun.
  apply createGraph_Ok_inv in Hrun
    as (mainAsset & children & Hmain & -> & _ & Hids & _ & _).
  apply createAsset_Ok_inv in Hmain as (source & ast & code & _ & _ & _ & -> & _).
  rewrite fmap_cons, Hids, Hid. done.
Qed.

Lemma graph_ids_contiguous_witness :
  next_id (initial_world Demo.chain) = 0 ∧
  createGraph (H:=Demo.externals) Demo.a_js (initial_world Demo.chain)
    = (Ok Demo.chain_graph, Demo.chain_world) ∧
  Asset.id <$> Demo.chain_graph = seq 0 (length Demo.chain_graph).
Proof.
  split_and!; [reflexivity | exact createGraph_chain |].
  exact (graph_ids_contiguous (H:=Demo.externals) Demo.a_js
           (initial_world Demo.chain) Demo.chain_graph Demo.chain_world
           eq_refl createGraph_chain).
Defined.





(** C5.  The first element of a graph that [createGraph] returns, when it
    starts with the counter at 0, has id 0 and is the asset of the entry
    file: its path is the entry path, and its specifiers and code are those
    that the parser and the transformer produce for the content of that
    file. *)
Theorem root_is_entry_asset `{Externals} file w graph w' :
  next_id w = 0 →
  createGraph file w = (Ok graph, w') →
  ∃ root rest source ast,
    graph = root :: rest ∧
    Asset.id root = 0 ∧
    Asset.filePath root = file ∧
    files w !! file = Some source ∧
    parser_parse source = Some ast ∧
    Asset.deps root = import_sources ast ∧
    transformFromAst ast = Some (Asset.code root).
Proof.
  intros Hid Hrun.
  apply createGraph_Ok_inv in Hrun
    as (mainAsset & children & Hmain & -> & _ & _ & _ & _).
  apply createAsset_Ok_inv in Hmain
    as (source & ast & code & Hf & Hp & Ht & -> & _).
  eexists _, children, source, ast. split_and!; try done.
Qed.

Lemma root_is_entry_asset_witness :
  next_id (initial_world Demo.chain) = 0 ∧
  createGraph (H:=Demo.externals) Demo.a_js (initial_world Demo.chain)
    = (Ok Demo.chain_graph, Demo.chain_world) ∧
  ∃ root rest source ast,
    Demo.chain_graph = root :: rest ∧
    Asset.id root = 0 ∧
    Asset.filePath root = Demo.a_js ∧
    files (initial_world Demo.chain) !! Demo.a_js = Some source ∧
    parser_parse (Externals:=Demo.externals) source = Some ast ∧
    Asset.deps root = import_sources ast ∧
    transformFromAst ast = Some (Asset.code root).
Proof.
  split_and!; [reflexivity | exact createGraph_chain |].
  exact (root_is_entry_asset (H:=Demo.externals) Demo.a_js
           (initial_world Demo.chain) Demo.chain_graph Demo.chain_world
           eq_refl createGraph_chain).
Defined.

(** C6.  In a graph that [createGraph] returns, the assets after the root
    are, in order, the files [path.resolve('./example', s)] for the
    non-empty specifiers [s] met during the traversal: the base is the same
    for all of them and the path of the importing file plays no part.  An
    empty specifier is skipped: the files read are the entry and these
    paths, and the counter advances by one per asset, so an empty specifier
    consumes no id. *)
Theorem specifiers_resolve_against_fixed_base `{Externals} file w graph w' :
  createGraph file w = (Ok graph, w') →
  ∃ root children,
    graph = root :: children ∧
    Asset.filePath <$> children =
      path_resolve "./example" <$> nonempty_deps (Asset.deps root) ∧
    io_log w' =
      reads_of (file :: (path_resolve "./example"
                           <$> nonempty_deps (Asset.deps root)))
      ++ io_log w ∧
    next_id w' = next_id w + 1 + length (nonempty_deps (Asset.deps root)).
Proof.
  intros Hrun.
  apply createGraph_Ok_inv in Hrun
    as (mainAsset & children & _ & -> & Hpaths & _ & _ & ->).
  eexists _, children. split_and!; try done.
  - cbn [io_log]. by rewrite Hpaths.
  - cbn [next_id with_mapping Asset.deps].
    rewrite <- (length_fmap (path_resolve "./example")), <- Hpaths, length_fmap.
    lia.
Qed.

Lemma specifiers_resolve_against_fixed_base_witness :
  createGraph (H:=Demo.externals) Demo.a_js (initial_world Demo.with_empty)
    = (Ok Demo.with_empty_graph, Demo.with_empty_world) ∧
  ∃ root children,
    Demo.with_empty_graph = root :: children ∧
    Asset.filePath <$> children =
      path_resolve (Externals:=Demo.externals) "./example"
        <$> nonempty_deps (Asset.deps root) ∧
    io_log Demo.with_empty_world =
      reads_of (Demo.a_js :: (path_resolve (Externals:=Demo.externals) "./example"
                                <$> nonempty_deps (Asset.deps root)))
      ++ io_log (initial_world Demo.with_empty) ∧
    next_id Demo.with_empty_world =
      next_id (initial_world Demo.with_empty) + 1
      + length (nonempty_deps (Asset.deps root)).
Proof.
  split; [exact createGraph_with_empty |].
  exact (specifiers_resolve_against_fixed_base (H:=Demo.externals) Demo.a_js
           (initial_world Demo.with_empty) Demo.with_empty_graph
           Demo.with_empty_world createGraph_with_empty).
Defined.

(** C7.  With a missing or an empty [entry], [build] throws the error
    "entry Cannot be empty" at once: the world is the one it started in, so
    no file was read or written and the counter was not touched. *)
Theorem build_without_entry `{Externals} out w :
  build {| entry := None; output := out |} w
    = (Err (ConfigError "entry Cannot be empty"), w) ∧
  build {| entry := Some ""; output := out |} w
    = (Err (ConfigError "entry Cannot be empty"), w).
Proof. split; reflexivity. Qed.

(** C8.  [b.js], imported by the entry, imports [./missing.js], which
    resolves to a file that does not exist.  [build] succeeds all the same
    and writes a bundle of [a.js] and [b.js]: the specifiers of [b.js] are
    never resolved, so the missing file is never read and no error is
    raised. *)
Theorem missing_transitive_dependency_builds :
  Demo.dangling_child !! Demo.b_js = Some "import './missing.js'" ∧
  path_resolve (Externals:=Demo.externals) "./example" "./missing.js"
    = "/proj/example/missing.js" ∧
  Demo.dangling_child !! "/proj/example/missing.js" = None ∧
  build (H:=Demo.externals) Demo.opts (initial_world Demo.dangling_child)
    = (Ok tt, Demo.dangling_child_world) ∧
  files Demo.dangling_child_world !! Demo.bundle_js
    = Some Demo.dangling_child_bundle.
Proof. split_and!; vm_compute; reflexivity. Qed.

(** C9.  When the entry file imports [./b.js] twice (and the file can be
    read, parsed and transformed), [createGraph], starting with the counter
    at 0, reads [b.js] twice and returns the entry asset followed by two
    assets of [b.js], with ids 1 and 2: nothing is deduplicated by path. *)
Theorem repeated_import_extracted_twice `{Externals}
    file w source ast code source_b ast_b code_b :
  next_id w = 0 →
  files w !! file = Some source →
  parser_parse source = Some ast →
  transformFromAst ast = Some code →
  import_sources ast = ["./b.js"; "./b.js"] →
  files w !! path_resolve "./example" "./b.js" = Some source_b →
  parser_parse source_b = Some ast_b →
  transformFromAst ast_b = Some code_b →
  createGraph file w =
    (Ok [ {| Asset.filePath := file; Asset.code := code;
             Asset.deps := ["./b.js"; "./b.js"]; Asset.id := 0;
             Asset.mapping := {[ "./b.js" := 2 ]} |};
          {| Asset.filePath := path_resolve "./example" "./b.js";
             Asset.code := code_b; Asset.deps := import_sources ast_b;
             Asset.id := 1; Asset.mapping := ∅ |};
          {| Asset.filePath := path_resolve "./example" "./b.js";
             Asset.code := code_b; Asset.deps := import_sources ast_b;
             Asset.id := 2; Asset.mapping := ∅ |} ],
     {| next_id := 3; files := files w;
        io_log := EvRead (path_resolve "./example" "./b.js")
                  :: EvRead (path_resolve "./example" "./b.js")
                  :: EvRead file :: io_log w |}).
Proof.
  intros Hid Hf Hp Ht Hdeps Hfb Hpb Htb.
  unfold createGraph.
  rewrite (bind_Ok_eq _ _ _ _ _ (createAsset_Ok_intro _ _ _ _ _ Hf Hp Ht)).
  rewrite Hdeps, Hid.
  cbn [length Nat.sub for_i lookup list_lookup Asset.deps forEach_deps truthy].
  unfold bind at 1.
  rewrite (bind_Ok_eq _ _ _ _ _
             (createAsset_Ok_intro _ (after_extract file w) _ _ _ Hfb Hpb Htb)).
  cbn [alter list_alter app Asset.id next_id after_extract].
  rewrite (bind_Ok_eq _ _ _ _ _
             (createAsset_Ok_intro _ (after_extract _ (after_extract file w))
                _ _ _ Hfb Hpb Htb)).
  cbn [alter list_alter app Asset.id next_id after_extract forEach_deps ret
       Asset.set_mapping Asset.mapping Asset.filePath Asset.code Asset.deps
       files io_log].
  unfold ret, Asset.set_mapping, obj_set, after_extract.
  cbn [Asset.mapping Asset.filePath Asset.code Asset.deps Asset.id
       next_id files io_log].
  rewrite !decide_False by discriminate.
  rewrite insert_insert_eq, insert_empty, Hid. done.
Qed.

Lemma repeated_import_extracted_twice_witness :
  createGraph (H:=Demo.externals) Demo.a_js (initial_world Demo.twice) =
    (Ok [ {| Asset.filePath := Demo.a_js; Asset.code := "";
             Asset.deps := ["./b.js"; "./b.js"]; Asset.id := 0;
             Asset.mapping := {[ "./b.js" := 2 ]} |};
          {| Asset.filePath := Demo.b_js; Asset.code := "b = 1";
             Asset.deps := []; Asset.id := 1; Asset.mapping := ∅ |};
          {| Asset.filePath := Demo.b_js; Asset.code := "b = 1";
             Asset.deps := []; Asset.id := 2; Asset.mapping := ∅ |} ],
     {| next_id := 3; files := Demo.twice;
        io_log := [EvRead Demo.b_js; EvRead Demo.b_js; EvRead Demo.a_js] |}).
Proof.
  exact (repeated_import_extracted_twice (H:=Demo.externals)
           Demo.a_js (initial_world Demo.twice)
           ("import './b.js'" +:+ String Demo.newline "import './b.js'")
           ["import './b.js'"; "import './b.js'"] ""
           "b = 1" ["b = 1"] "b = 1"
           eq_refl eq_refl eq_refl eq_refl eq_refl eq_refl eq_refl eq_refl).
Defined.

(** C10.  When [b.js], imported by the entry, imports [./c.js] twice,
    [createGraph] returns the entry asset and the asset of [b.js] only: no
    child asset is created for either occurrence of [./c.js], and the
    mapping of [b] is empty. *)
Theorem nested_duplicate_specifier_no_children :
  (createGraph (H:=Demo.externals) Demo.a_js (initial_world Demo.nested_twice)).1
    = Ok Demo.nested_twice_graph ∧
  length Demo.nested_twice_graph = 2 ∧
  Asset.filePath <$> Demo.nested_twice_graph = [Demo.a_js; Demo.b_js] ∧
  Asset.deps <$> Demo.nested_twice_graph = [["./b.js"]; ["./c.js"; "./c.js"]] ∧
  Asset.mapping <$> Demo.nested_twice_graph = [{[ "./b.js" := 1 ]}; ∅].
Proof. split_and!; [vm_compute; reflexivity | reflexivity..]. Qed.

(** * Further properties of the code *)

(** ** The graph *)

Lemma createGraph_twice :
  createGraph (H:=Demo.externals) Demo.a_js (initial_world Demo.twice)
  = (Ok DemoConfig.twice_graph, DemoConfig.twice_world).
Proof. vm_compute. reflexivity. Qed.

Lemma createGraph_proto :
  createGraph (H:=Demo.externals) Demo.a_js (initial_world DemoConfig.proto)
  = (Ok DemoConfig.proto_graph, DemoConfig.proto_world).
Proof. vm_compute. reflexivity. Qed.

Lemma nonempty_deps_lookup ds k s :
  nonempty_deps ds !! k = Some s → s ∈ ds ∧ s ≠ "".
Proof.
  intros Hk%list_elem_of_lookup_2. unfold nonempty_deps in Hk.
  by apply list_elem_of_filter in Hk as [? ?].
Qed.

Lemma obj_set_lookup_proto key value obj :
  obj_set key value obj !! "__proto__" = obj !! "__proto__".
Proof.
  unfold obj_set. case_decide; [done|]. by apply lookup_insert_ne.
Qed.

Lemma record_deps_proto ds : ∀ n m,
  record_deps ds n m !! "__proto__" = m !! "__proto__".
Proof.
  induction ds as [|s ds IH]; intros n m; [done|].
  cbn [record_deps]. destruct (truthy s); rewrite IH; [|done].
  apply obj_set_lookup_proto.
Qed.

(** X1.  A graph that [createGraph] returns is the entry asset followed by
    exactly one asset per non-empty specifier of the entry file, and each of
    these is returned with the empty mapping it was created with, whatever
    it imports. *)
Theorem children_returned_unprocessed `{Externals} file w graph w' :
  createGraph file w = (Ok graph, w') →
  ∃ root children,
    graph = root :: children ∧
    length children = length (nonempty_deps (Asset.deps root)) ∧
    Forall (λ child, Asset.mapping child = ∅) children.
Proof.
  intros Hrun.
  apply createGraph_Ok_inv in Hrun
    as (mainAsset & children & _ & -> & Hpaths & _ & Hmaps & _).
  eexists _, children. split_and!; [done| |done].
  cbn [with_mapping Asset.deps].
  by rewrite <- (length_fmap Asset.filePath), Hpaths, length_fmap.
Qed.

Lemma children_returned_unprocessed_witness :
  createGraph (H:=Demo.externals) Demo.a_js (initial_world Demo.chain)
    = (Ok Demo.chain_graph, Demo.chain_world) ∧
  ∃ root children,
    Demo.chain_graph = root :: children ∧
    length children = length (nonempty_deps (Asset.deps root)) ∧
    Forall (λ child, Asset.mapping child = ∅) children.
Proof.
  split; [exact createGraph_chain|].
  exact (children_returned_unprocessed (H:=Demo.externals) Demo.a_js
           (initial_world Demo.chain) Demo.chain_graph Demo.chain_world
           createGraph_chain).
Defined.

(** X2.  In a graph that [createGraph] returns, every non-empty specifier
    of the entry asset other than [__proto__] has an entry in the mapping of
    the entry asset, and the entry is the id of an asset of the graph that
    was extracted from the path the specifier resolves to. *)
Theorem entry_specifier_mapped `{Externals} file w graph w' root s :
  createGraph file w = (Ok graph, w') →
  graph !! 0 = Some root →
  s ∈ Asset.deps root → s ≠ "" → s ≠ "__proto__" →
  ∃ child,
    child ∈ graph ∧
    Asset.mapping root !! s = Some (Asset.id child) ∧
    Asset.filePath child = path_resolve "./example" s.
Proof. apply entry_mapping_defined. Qed.

Lemma entry_specifier_mapped_witness :
  createGraph (H:=Demo.externals) Demo.a_js (initial_world Demo.chain)
    = (Ok Demo.chain_graph, Demo.chain_world) ∧
  ∃ child,
    child ∈ Demo.chain_graph ∧
    ({[ "./b.js" := 1 ]} : gmap string nat) !! "./b.js"
    = Some (Asset.id child) ∧
    Asset.filePath child
    = path_resolve (Externals:=Demo.externals) "./example" "./b.js".
Proof.
  split; [exact createGraph_chain|].
  refine (entry_specifier_mapped (H:=Demo.externals) Demo.a_js
            (initial_world Demo.chain) Demo.chain_graph Demo.chain_world
            _ "./b.js" createGraph_chain eq_refl _ _ _).
  - apply elem_of_cons. left. reflexivity.
  - discriminate.
  - discriminate.
Defined.

(** X3.  In a graph that [createGraph] returns, the mapping of the entry
    asset holds nothing but its own specifiers: each entry has a non-empty
    specifier of the entry file as its key and, as its value, the id of an
    asset of the graph extracted from the path that specifier resolves
    to. *)
Theorem entry_mapping_sound `{Externals} file w graph w' root s v :
  createGraph file w = (Ok graph, w') →
  graph !! 0 = Some root →
  Asset.mapping root !! s = Some v →
  s ∈ Asset.deps root ∧ s ≠ "" ∧
  ∃ child,
    child ∈ graph ∧ Asset.id child = v ∧
    Asset.filePath child = path_resolve "./example" s.
Proof.
  intros Hrun Hroot Hlook.
  pose proof Hrun as Hinv. apply createGraph_Ok_inv in Hinv
    as (mainAsset & children & _ & Hgraph & _ & _ & _ & _).
  rewrite Hgraph in Hroot. injection Hroot as <-.
  cbn [with_mapping Asset.mapping Asset.deps] in *.
  apply record_deps_sound in Hlook as [Hlook|(k & -> & Hk)];
    [by rewrite lookup_empty in Hlook|].
  destruct (nonempty_deps_lookup _ _ _ Hk) as [Hin Hs].
  split_and!; [done..|].
  destruct (createGraph_child file w graph w'
              (with_mapping mainAsset
                 (record_deps (Asset.deps mainAsset) (S (next_id w)) ∅))
              k s Hrun) as (child & Hchild & Hpath & Hid);
    [by rewrite Hgraph|done|].
  exists child. split_and!; [by eapply list_elem_of_lookup_2|done..].
Qed.

Lemma entry_mapping_sound_witness :
  createGraph (H:=Demo.externals) Demo.a_js (initial_world Demo.chain)
    = (Ok Demo.chain_graph, Demo.chain_world) ∧
  "./b.js" ∈ ["./b.js"] ∧ "./b.js" ≠ "" ∧
  ∃ child,
    child ∈ Demo.chain_graph ∧ Asset.id child = 1 ∧
    Asset.filePath child
    = path_resolve (Externals:=Demo.externals) "./example" "./b.js".
Proof.
  split; [exact createGraph_chain|].
  exact (entry_mapping_sound (H:=Demo.externals) Demo.a_js
           (initial_world Demo.chain) Demo.chain_graph Demo.chain_world
           _ "./b.js" 1 createGraph_chain eq_refl eq_refl).
Defined.

(** X4.  When a non-empty specifier other than [__proto__] occurs twice
    among the specifiers of the entry file, the graph that [createGraph]
    returns holds a child for each occurrence, both extracted from the same
    path and with different ids; the mapping of the entry asset keeps the id
    of the child of the last occurrence, and no mapping in the graph refers
    to the child of the earlier one. *)
Theorem entry_duplicate_specifier_last_wins `{Externals}
    file w graph w' root pre s mid post :
  createGraph file w = (Ok graph, w') →
  graph !! 0 = Some root →
  Asset.deps root = pre ++ s :: mid ++ s :: post →
  s ≠ "" → s ≠ "__proto__" → s ∉ post →
  ∃ earlier last,
    graph !! S (length (nonempty_deps pre)) = Some earlier ∧
    graph !! S (length (nonempty_deps (pre ++ s :: mid))) = Some last ∧
    Asset.filePath earlier = path_resolve "./example" s ∧
    Asset.filePath last = path_resolve "./example" s ∧
    Asset.id earlier ≠ Asset.id last ∧
    Asset.mapping root !! s = Some (Asset.id last) ∧
    ∀ A s', A ∈ graph → Asset.mapping A !! s' ≠ Some (Asset.id earlier).
Proof. apply entry_mapping_last_occurrence. Qed.

Lemma entry_duplicate_specifier_last_wins_witness :
  createGraph (H:=Demo.externals) Demo.a_js (initial_world Demo.twice)
    = (Ok DemoConfig.twice_graph, DemoConfig.twice_world) ∧
  ∃ earlier last,
    DemoConfig.twice_graph !! S (length (nonempty_deps [])) = Some earlier ∧
    DemoConfig.twice_graph
      !! S (length (nonempty_deps ([] ++ "./b.js" :: []))) = Some last ∧
    Asset.filePath earlier
    = path_resolve (Externals:=Demo.externals) "./example" "./b.js" ∧
    Asset.filePath last
    = path_resolve (Externals:=Demo.externals) "./example" "./b.js" ∧
    Asset.id earlier ≠ Asset.id last ∧
    ({[ "./b.js" := 2 ]} : gmap string nat) !! "./b.js"
    = Some (Asset.id last) ∧
    ∀ A s', A ∈ DemoConfig.twice_graph →
            Asset.mapping A !! s' ≠ Some (Asset.id earlier).
Proof.
  split; [exact createGraph_twice|].
  refine (entry_duplicate_specifier_last_wins (H:=Demo.externals) Demo.a_js
            (initial_world Demo.twice) DemoConfig.twice_graph
            DemoConfig.twice_world _ [] "./b.js" [] []
            createGraph_twice eq_refl eq_refl _ _ _).
  - discriminate.
  - discriminate.
  - apply not_elem_of_nil.
Defined.

(** X5.  A specifier [__proto__] of the entry file gets its child like any
    other non-empty specifier, but no entry in the mapping of the entry
    asset: the assignment [mapping["__proto__"] = id] does not create a
    property. *)
Theorem proto_specifier_unmapped `{Externals} file w graph w' root :
  createGraph file w = (Ok graph, w') →
  graph !! 0 = Some root →
  "__proto__" ∈ Asset.deps root →
  Asset.mapping root !! "__proto__" = None ∧
  ∃ child,
    child ∈ graph ∧ child ≠ root ∧
    Asset.filePath child = path_resolve "./example" "__proto__".
Proof.
  intros Hrun Hroot Hin.
  apply list_elem_of_split in Hin as (pre & post & Hdeps).
  destruct (createGraph_child file w graph w' root
              (length (nonempty_deps pre)) "__proto__" Hrun Hroot)
    as (child & Hchild & Hpath & Hid).
  { rewrite Hdeps. by apply nonempty_deps_middle. }
  apply createGraph_Ok_inv in Hrun
    as (mainAsset & children & Hmain & -> & _ & _ & _ & _).
  apply createAsset_Ok_inv in Hmain as (? & ? & ? & _ & _ & _ & -> & _).
  injection Hroot as <-. cbn [with_mapping Asset.mapping].
  split; [by rewrite record_deps_proto, lookup_empty|].
  exists child. split_and!; [by eapply list_elem_of_lookup_2| |done].
  intros ->. cbn [with_mapping Asset.id] in Hid. lia.
Qed.

Lemma proto_specifier_unmapped_witness :
  createGraph (H:=Demo.externals) Demo.a_js (initial_world DemoConfig.proto)
    = (Ok DemoConfig.proto_graph, DemoConfig.proto_world) ∧
  (∅ : gmap string nat) !! "__proto__" = None ∧
  ∃ child,
    child ∈ DemoConfig.proto_graph ∧
    child ≠ {| Asset.filePath := Demo.a_js; Asset.code := "";
               Asset.deps := ["__proto__"]; Asset.id := 0;
               Asset.mapping := ∅ |} ∧
    Asset.filePath child
    = path_resolve (Externals:=Demo.externals) "./example" "__proto__".
Proof.
  split; [exact createGraph_proto|].
  refine (proto_specifier_unmapped (H:=Demo.externals) Demo.a_js
            (initial_world DemoConfig.proto) DemoConfig.proto_graph
            DemoConfig.proto_world _ createGraph_proto eq_refl _).
  apply elem_of_cons. left. reflexivity.
Defined.

(** ** The traversal from another counter value *)

Lemma shift_set_mapping c key n a :
  Asset.set_mapping key (c + n) (shift_asset c a)
  = shift_asset c (Asset.set_mapping key n a).
Proof.
  unfold Asset.set_mapping, shift_asset, obj_set. cbn.
  f_equal. case_decide; [done|]. by rewrite fmap_insert.
Qed.

Section Shift.
Context `{Externals}.

Lemma createAsset_bump c file w :
  createAsset file (bump c w)
  = match createAsset file w with
    | (Ok a, w') => (Ok (shift_asset c a), bump c w')
    | (Err e, w') => (Err e, bump c w')
    end.
Proof.
  unfold createAsset, bind, readFileSync, or_throw, post_increment_id, ret,
    throw, bump. cbn [files next_id io_log].
  destruct (files w !! file) as [source|]; [|done].
  destruct (parser_parse source) as [ast|]; [|done].
  destruct (transformFromAst ast) as [code|]; [|done].
  cbn [files next_id io_log]. unfold shift_asset. cbn.
  rewrite fmap_empty. do 3 f_equal. lia.
Qed.

Lemma forEach_deps_bump c i ds : ∀ queue w,
  forEach_deps i ds (shift_asset c <$> queue) (bump c w)
  = (shift_graph c (forEach_deps i ds queue w).1,
     bump c (forEach_deps i ds queue w).2).
Proof.
  induction ds as [|s ds IH]; intros queue w; [done|].
  cbn [forEach_deps]. destruct (truthy s); [|apply IH].
  unfold bind. rewrite createAsset_bump.
  destruct (createAsset (path_resolve "./example" s) w) as [[child|e] w1];
    [|done].
  rewrite <- IH. f_equal.
  rewrite fmap_app. f_equal.
  cbn [shift_asset Asset.id].
  symmetry. apply list_fmap_alter, Forall_forall. intros a _.
  symmetry. apply shift_set_mapping.
Qed.

Lemma for_i_bump c remaining : ∀ i queue w,
  for_i remaining i (shift_asset c <$> queue) (bump c w)
  = (shift_graph c (for_i remaining i queue w).1,
     bump c (for_i remaining i queue w).2).
Proof.
  induction remaining as [|r IH]; intros i queue w; [done|].
  cbn [for_i]. rewrite list_lookup_fmap.
  destruct (queue !! i) as [asset|]; [|done].
  cbn [fmap option_fmap option_map shift_asset Asset.deps].
  unfold bind. rewrite forEach_deps_bump.
  destruct (forEach_deps i (Asset.deps asset) queue w) as [[queue'|e] w1];
    [|done].
  apply IH.
Qed.

End Shift.

(** X9.  [createGraph] called with the counter at [c + n] does what it
    does with the counter at [n], except that [c] is added to every id it
    assigns: the same reads, the same outcome, and on success the same graph
    with [c] added to each asset's id and to each id in a mapping. *)
Theorem createGraph_counter_shift `{Externals} c file w :
  createGraph file (bump c w)
  = (shift_graph c (createGraph file w).1, bump c (createGraph file w).2).
Proof.
  unfold createGraph, bind at 1. rewrite createAsset_bump.
  unfold bind. destruct (createAsset file w) as [[mainAsset|e] w1]; [|done].
  cbn [length Nat.sub].
  apply (for_i_bump c 1 0 [mainAsset] w1).
Qed.

(** ** Failing and succeeding builds *)

Section Outcomes.
Context `{Externals}.

(** The world in which a pass stops at a specifier whose file is missing,
    after the specifiers [pre] before it were extracted. *)
Lemma forEach_deps_stops i pre s post : ∀ queue w,
  Forall (λ s', s' ≠ "" → extractable (files w) (path_resolve "./example" s')) pre →
  s ≠ "" → files w !! path_resolve "./example" s = None →
  forEach_deps i (pre ++ s :: post) queue w
  = (Err (ReadError (path_resolve "./example" s)),
     {| next_id := next_id w + length (nonempty_deps pre);
        files := files w;
        io_log := reads_of (path_resolve "./example" <$> (nonempty_deps pre ++ [s]))
                  ++ io_log w |}).
Proof.
  induction pre as [|s0 pre IH]; intros queue w Hpre Hs Hmiss.
  - cbn [app forEach_deps]. rewrite (proj2 (truthy_nonempty s) Hs).
    unfold bind. rewrite createAsset_missing by done.
    unfold after_read. cbn. do 2 f_equal. lia.
  - apply Forall_cons in Hpre as [Hs0 Hpre].
    cbn [app forEach_deps]. destruct (truthy s0) eqn:Ht.
    + destruct (createAsset_extractable _ w (Hs0 (proj1 (truthy_nonempty s0) Ht)))
        as [c Hc].
      rewrite (bind_Ok_eq _ _ _ _ _ Hc), IH by done.
      rewrite nonempty_deps_cons_true by done.
      cbn [after_extract next_id files io_log app length].
      rewrite fmap_cons, reads_of_cons, <- app_assoc. do 2 f_equal. lia.
    + rewrite nonempty_deps_cons_false by done. by apply IH.
Qed.

End Outcomes.

(** X6.  A call of [build] that throws has changed no file but, at most,
    the output file: when the error is not the one of the final write,
    every file is as it was and all [build] has done is reading; when the
    final write fails, the file it was writing is the one that may be left
    with other content. *)
Theorem failed_build_changes_at_most_output `{Externals} opts w e w' :
  build opts w = (Err e, w') →
  (∀ file, file ≠ output_file opts → files w' !! file = files w !! file) ∧
  ((∀ file, e ≠ WriteError file) →
   files w' = files w ∧
   ∃ reads, io_log w' = reads ++ io_log w ∧ Forall is_read reads) ∧
  (files w' = files w
   ∨ ∃ code remains,
       e = WriteError (output_file opts) ∧
       write_result (output_file opts) code = WriteFailed (Some remains) ∧
       files w' = <[output_file opts := remains]> (files w)).
Proof.
  intros [[Hfs Hlog]|(-> & file & code & w1 & remains & _ & _ & Hout & Hfs & _)]
    %build_Err_cases.
  - split_and!; [by rewrite Hfs|done|by left].
  - destruct remains as [remains|]; cbn in Hfs.
    + split_and!.
      * intros f Hf. rewrite Hfs. by apply lookup_insert_ne.
      * intros Hne. by destruct (Hne (output_file opts)).
      * right. by exists code, remains.
    + split_and!.
      * by rewrite Hfs.
      * intros Hne. by destruct (Hne (output_file opts)).
      * by left.
Qed.

Lemma build_full_disk :
  build (H:=DemoConfig.full_disk) Demo.opts (initial_world Demo.chain)
  = (Err (WriteError Demo.bundle_js), DemoConfig.full_disk_world).
Proof. vm_compute. reflexivity. Qed.

Lemma failed_build_changes_at_most_output_witness :
  ((∀ file, file ≠ output_file Demo.opts →
            files DemoConfig.dangling_world !! file
            = files (initial_world Demo.dangling) !! file) ∧
   ((∀ file, ReadError "/proj/example/missing.js" ≠ WriteError file) →
    files DemoConfig.dangling_world = files (initial_world Demo.dangling) ∧
    ∃ reads,
      io_log DemoConfig.dangling_world
      = reads ++ io_log (initial_world Demo.dangling) ∧
      Forall is_read reads) ∧
   (files DemoConfig.dangling_world = files (initial_world Demo.dangling)
    ∨ ∃ code remains,
        ReadError "/proj/example/missing.js"
        = WriteError (output_file Demo.opts) ∧
        write_result (Externals:=Demo.externals) (output_file Demo.opts) code
        = WriteFailed (Some remains) ∧
        files DemoConfig.dangling_world
        = <[output_file Demo.opts := remains]>
            (files (initial_world Demo.dangling)))) ∧
  ((∀ file, file ≠ output_file Demo.opts →
            files DemoConfig.full_disk_world !! file
            = files (initial_world Demo.chain) !! file) ∧
   ((∀ file, WriteError Demo.bundle_js ≠ WriteError file) →
    files DemoConfig.full_disk_world = files (initial_world Demo.chain) ∧
    ∃ reads,
      io_log DemoConfig.full_disk_world
      = reads ++ io_log (initial_world Demo.chain) ∧
      Forall is_read reads) ∧
   (files DemoConfig.full_disk_world = files (initial_world Demo.chain)
    ∨ ∃ code remains,
        WriteError Demo.bundle_js = WriteError (output_file Demo.opts) ∧
        write_result (Externals:=DemoConfig.full_disk)
          (output_file Demo.opts) code
        = WriteFailed (Some remains) ∧
        files DemoConfig.full_disk_world
        = <[output_file Demo.opts := remains]>
            (files (initial_world Demo.chain)))).
Proof.
  split.
  - exact (failed_build_changes_at_most_output (H:=Demo.externals) Demo.opts
             (initial_world Demo.dangling) _ DemoConfig.dangling_world
             build_dangling).
  - exact (failed_build_changes_at_most_output (H:=DemoConfig.full_disk)
             Demo.opts (initial_world Demo.chain) _
             DemoConfig.full_disk_world build_full_disk).
Defined.

(** X7.  A call of [build] that returns has read the template, built the
    graph of the entry with [createGraph], rendered the template for the
    modules of that graph and written the text to the output file: the
    files it has read are the template and then the file of each asset of
    the graph, in the order of the graph, once per asset; the output file
    holds the rendered text and every other file is as it was; the counter
    has advanced by the number of assets. *)
Theorem successful_build_effects `{Externals} opts w w' :
  build opts w = (Ok tt, w') →
  ∃ file template graph w2 code,
    entry opts = Some file ∧
    files w !! "./bundle.ejs" = Some template ∧
    createGraph file (after_read "./bundle.ejs" w) = (Ok graph, w2) ∧
    ejs_render template (TemplateData.of_asset <$> graph) = Some code ∧
    write_result (output_file opts) code = Written ∧
    files w' = <[output_file opts := code]> (files w) ∧
    io_log w'
    = EvWrite (output_file opts) code
      :: reads_of ("./bundle.ejs" :: (Asset.filePath <$> graph)) ++ io_log w ∧
    next_id w' = next_id w + length graph.
Proof.
  intros Hrun. pose proof Hrun as Hinv. apply build_Ok_inv in Hinv
    as (file & template & graph & w2 & code & Hentry & Hfile & Htpl & Hgraph
        & Hcode & Hw').
  assert (write_result (output_file opts) code = Written) as Hwritten.
  { rewrite (build_eq _ _ _ Hentry Hfile) in Hrun.
    apply bind_Ok_inv in Hrun as (code' & w1 & _ & Hwrite).
    unfold writeFileSync in Hwrite.
    destruct (write_result (output_file opts) code') as [|[remains|]] eqn:Hout;
      [|discriminate..].
    assert (code' = code) as <- by congruence. done. }
  pose proof Hgraph as Hshape. apply createGraph_Ok_inv in Hshape
    as (mainAsset & children & Hmain & Hg & _ & _ & _ & Hw2).
  apply createAsset_Ok_inv in Hmain as (? & ? & ? & _ & _ & _ & Ha & _).
  exists file, template, graph, w2, code.
  split_and!; [done..| | |]; rewrite Hw', Hw2.
  - done.
  - rewrite Hg, Ha. cbn [io_log after_read]. unfold output_file. f_equal.
    rewrite (reads_of_cons "./bundle.ejs"), <- app_assoc. done.
  - rewrite Hg. cbn [next_id after_read length]. lia.
Qed.

Lemma successful_build_effects_witness :
  build (H:=Demo.externals) Demo.opts (initial_world Demo.chain)
    = (Ok tt, Demo.after_first_build) ∧
  ∃ file template graph w2 code,
    entry Demo.opts = Some file ∧
    files (initial_world Demo.chain) !! "./bundle.ejs" = Some template ∧
    createGraph (H:=Demo.externals) file
      (after_read "./bundle.ejs" (initial_world Demo.chain)) = (Ok graph, w2) ∧
    ejs_render (Externals:=Demo.externals) template
      (TemplateData.of_asset <$> graph) = Some code ∧
    write_result (Externals:=Demo.externals) (output_file Demo.opts) code
    = Written ∧
    files Demo.after_first_build
    = <[output_file Demo.opts := code]> (files (initial_world Demo.chain)) ∧
    io_log Demo.after_first_build
    = EvWrite (output_file Demo.opts) code
      :: reads_of ("./bundle.ejs" :: (Asset.filePath <$> graph))
         ++ io_log (initial_world Demo.chain) ∧
    next_id Demo.after_first_build
    = next_id (initial_world Demo.chain) + length graph.
Proof.
  assert (build (H:=Demo.externals) Demo.opts (initial_world Demo.chain)
          = (Ok tt, Demo.after_first_build)) as Hrun by (vm_compute; reflexivity).
  split; [exact Hrun|].
  exact (successful_build_effects (H:=Demo.externals) Demo.opts
           (initial_world Demo.chain) Demo.after_first_build Hrun).
Defined.

(** X8.  When a non-empty specifier of the entry file resolves to a file
    that does not exist, [build] throws and writes nothing, whatever the
    other specifiers are; the error is the read error of that file when the
    template and everything before the specifier could be processed. *)
Theorem entry_import_missing_aborts `{Externals}
    opts file w source ast pre s post :
  entry opts = Some file → file ≠ "" →
  files w !! file = Some source →
  parser_parse source = Some ast →
  import_sources ast = pre ++ s :: post →
  s ≠ "" →
  files w !! path_resolve "./example" s = None →
  ∃ e w',
    build opts w = (Err e, w') ∧
    files w' = files w ∧
    (∃ new, io_log w' = new ++ io_log w ∧ Forall is_read new) ∧
    (is_Some (files w !! "./bundle.ejs") →
     is_Some (transformFromAst ast) →
     Forall (λ s', s' ≠ "" →
                   extractable (files w) (path_resolve "./example" s')) pre →
     e = ReadError (path_resolve "./example" s)).
Proof. apply entry_missing_dependency_aborts. Qed.

Lemma entry_import_missing_aborts_witness :
  ∃ e w',
    build (H:=Demo.externals) Demo.opts (initial_world Demo.dangling) = (Err e, w') ∧
    files w' = Demo.dangling ∧
    (∃ new, io_log w' = new ++ [] ∧ Forall is_read new) ∧
    (is_Some (Demo.dangling !! "./bundle.ejs") →
     is_Some (transformFromAst (Externals:=Demo.externals) ["import './missing.js'"]) →
     Forall (λ s', s' ≠ "" →
                   extractable (H:=Demo.externals) Demo.dangling
                     (path_resolve (Externals:=Demo.externals) "./example" s')) [] →
     e = ReadError "/proj/example/missing.js").
Proof.
  refine (entry_import_missing_aborts (H:=Demo.externals) Demo.opts Demo.a_js
            (initial_world Demo.dangling) "import './missing.js'"
            ["import './missing.js'"] [] "./missing.js" []
            eq_refl _ eq_refl eq_refl eq_refl _ eq_refl); discriminate.
Defined.

(** X10.  [createGraph] stops at the first specifier of the entry file that
    resolves to a missing file: it throws the read error of that file, the
    specifiers after it are never read, and the counter stays advanced by
    the entry asset and the children extracted before, although no graph is
    returned. *)
Theorem createGraph_stops_at_first_failure `{Externals}
    file w source ast code pre s post :
  files w !! file = Some source →
  parser_parse source = Some ast →
  transformFromAst ast = Some code →
  import_sources ast = pre ++ s :: post →
  Forall (λ s', s' ≠ "" →
                extractable (files w) (path_resolve "./example" s')) pre →
  s ≠ "" →
  files w !! path_resolve "./example" s = None →
  createGraph file w
  = (Err (ReadError (path_resolve "./example" s)),
     {| next_id := next_id w + 1 + length (nonempty_deps pre);
        files := files w;
        io_log := reads_of (file :: (path_resolve "./example"
                                       <$> (nonempty_deps pre ++ [s])))
                  ++ io_log w |}).
Proof.
  intros Hf Hp Ht Hdeps Hpre Hs Hmiss.
  unfold createGraph.
  rewrite (bind_Ok_eq _ _ _ _ _ (createAsset_Ok_intro _ _ _ _ _ Hf Hp Ht)).
  cbn [length Nat.sub for_i lookup list_lookup Asset.deps].
  rewrite Hdeps. unfold bind.
  rewrite forEach_deps_stops by done.
  cbn [after_extract next_id files io_log].
  rewrite reads_of_cons, <- app_assoc. do 2 f_equal. lia.
Qed.

Lemma createGraph_stops_at_first_failure_witness :
  createGraph (H:=Demo.externals) Demo.a_js (initial_world DemoConfig.broken)
  = (Err (ReadError "/proj/example/missing.js"),
     {| next_id := 2; files := DemoConfig.broken;
        io_log := [EvRead "/proj/example/missing.js"; EvRead Demo.b_js;
                   EvRead Demo.a_js] |}).
Proof.
  refine (createGraph_stops_at_first_failure (H:=Demo.externals) Demo.a_js
            (initial_world DemoConfig.broken)
            ("import './b.js'" +:+ String Demo.newline
               ("import './missing.js'" +:+ String Demo.newline
                  "import './c.js'"))
            ["import './b.js'"; "import './missing.js'"; "import './c.js'"]
            "" ["./b.js"] "./missing.js" ["./c.js"]
            eq_refl eq_refl eq_refl eq_refl _ _ eq_refl).
  - constructor; [|constructor]. intros _.
    exists "b = 1", ["b = 1"], "b = 1". split_and!; reflexivity.
  - discriminate.
Defined.

(** ** Finding the configuration *)

Lemma indexOf_from_Some i x l k :
  indexOf_from i x l = Some k → ∃ j, k = i + j ∧ l !! j = Some x.
Proof.
  revert i. induction l as [|y l IH]; intros i; [discriminate|].
  cbn [indexOf_from]. case_decide as Hxy.
  - intros [= <-]. exists 0. subst. split; [lia|done].
  - intros (j & -> & Hj)%IH. exists (S j). split; [lia|done].
Qed.

Lemma indexOf_from_None i x l : indexOf_from i x l = None ↔ x ∉ l.
Proof.
  revert i. induction l as [|y l IH]; intros i.
  - split; [intros _; apply not_elem_of_nil|done].
  - cbn [indexOf_from]. rewrite not_elem_of_cons. case_decide as Hxy.
    + split; [discriminate|]. intros [Hne _]. by subst.
    + rewrite IH. split; [|tauto]. intros ?. split; [congruence|done].
Qed.

Section Discovery.
Context `{ConfigEnv}.

(** One turn of the loop: the name that is loaded is the name of the file
    that was found. *)
Lemma readConfigFile_loop_cons file files :
  readConfigFile_loop (file :: files)
  = if decide (file ∈ configFilePaths)
    then match require (path_join dirname file) with
         | Err e => Err e
         | Ok (Some options) => Ok (Some options)
         | Ok None => readConfigFile_loop files
         end
    else readConfigFile_loop files.
Proof.
  cbn [readConfigFile_loop]. unfold indexOf.
  destruct (indexOf_from 0 file configFilePaths) as [index|] eqn:Hindex.
  - apply indexOf_from_Some in Hindex as (j & -> & Hj).
    rewrite decide_True by (by eapply list_elem_of_lookup_2).
    cbn [Nat.add]. by rewrite Hj.
  - apply indexOf_from_None in Hindex. by rewrite decide_False.
Qed.

Lemma readConfigFile_loop_skip pre files :
  (∀ g, g ∈ pre → g ∈ configFilePaths →
        require (path_join dirname g) = Ok None) →
  readConfigFile_loop (pre ++ files) = readConfigFile_loop files.
Proof.
  induction pre as [|g pre IH]; intros Hpre; [done|].
  rewrite <- app_comm_cons, readConfigFile_loop_cons.
  case_decide as Hg.
  - rewrite (Hpre g) by (done || by left).
    apply IH. intros g' Hin. apply Hpre. by right.
  - apply IH. intros g' Hin. apply Hpre. by right.
Qed.

Lemma readConfigFile_loop_Some files config :
  readConfigFile_loop files = Ok (Some config) →
  ∃ file, file ∈ files ∧ file ∈ configFilePaths ∧
          require (path_join dirname file) = Ok (Some config).
Proof.
  induction files as [|file files IH]; [discriminate|].
  rewrite readConfigFile_loop_cons. case_decide as Hfile.
  - destruct (require (path_join dirname file)) as [[c|]|e] eqn:Hreq.
    + intros [= ->]. exists file. split_and!; [by left|done..].
    + intros (f & Hin & Hf)%IH. exists f. split; [by right|done].
    + discriminate.
  - intros (f & Hin & Hf)%IH. exists f. split; [by right|done].
Qed.

End Discovery.

(** X11.  In a directory that lists neither [webpack.config.js] nor
    [webpackfile.js], [readConfigFile] returns [undefined] and loads no
    module: what loading would give plays no part. *)
Theorem readConfigFile_no_config_file `{ConfigEnv} :
  (∀ file, file ∈ readdirSync dirname → file ∉ configFilePaths) →
  readConfigFile = Ok None.
Proof.
  unfold readConfigFile. intros Hnone.
  rewrite <- (app_nil_r (readdirSync dirname)).
  rewrite readConfigFile_loop_skip; [done|].
  intros g Hin Hg. by destruct (Hnone g Hin).
Qed.

Lemma readConfigFile_no_config_file_witness :
  (∀ file, file ∈ @readdirSync DemoConfig.bare (@dirname DemoConfig.bare) →
           file ∉ configFilePaths) ∧
  readConfigFile (H0:=DemoConfig.bare) = Ok None.
Proof.
  assert (∀ file, file ∈ @readdirSync DemoConfig.bare (@dirname DemoConfig.bare) →
                  file ∉ configFilePaths) as Hnone.
  { intros file Hin Hcfg.
    repeat (apply elem_of_cons in Hin as [->|Hin];
            [repeat (apply elem_of_cons in Hcfg as [Hcfg|Hcfg];
                     [discriminate Hcfg|]);
             by apply elem_of_nil in Hcfg|]).
    by apply elem_of_nil in Hin. }
  split; [exact Hnone|].
  exact (readConfigFile_no_config_file (H:=DemoConfig.bare) Hnone).
Defined.

(** X12.  [readConfigFile] goes by the order of the directory listing, not
    by the order of its two file names: the first listed file with one of
    the two names whose module throws or exports a truthy value decides, and
    [readConfigFile] throws that error or returns that export.  Configuration
    files listed before it that export a falsy value are passed over, and
    files listed after it are not loaded. *)
Theorem readConfigFile_first_decisive `{ConfigEnv} pre file post :
  readdirSync dirname = pre ++ file :: post →
  file ∈ configFilePaths →
  (∀ g, g ∈ pre → g ∈ configFilePaths →
        require (path_join dirname g) = Ok None) →
  require (path_join dirname file) ≠ Ok None →
  readConfigFile = require (path_join dirname file).
Proof.
  intros Hlist Hfile Hpre Hreq. unfold readConfigFile.
  rewrite Hlist, readConfigFile_loop_skip, readConfigFile_loop_cons by done.
  rewrite decide_True by done.
  by destruct (require (path_join dirname file)) as [[c|]|e].
Qed.

Lemma readConfigFile_first_decisive_witness :
  readConfigFile (H0:=DemoConfig.both) = Ok (Some DemoConfig.with_path_only) ∧
  readConfigFile (H0:=DemoConfig.falsy_first) = Ok (Some DemoConfig.with_entry).
Proof.
  split.
  - refine (readConfigFile_first_decisive (H:=DemoConfig.both)
              ["index.js"] "webpackfile.js" ["webpack.config.js"]
              eq_refl _ _ _).
    + apply elem_of_cons. right. apply elem_of_cons. left. reflexivity.
    + intros g Hin Hg. apply elem_of_cons in Hin as [->|Hin].
      * repeat (apply elem_of_cons in Hg as [Hg|Hg]; [discriminate Hg|]).
        by apply elem_of_nil in Hg.
      * by apply elem_of_nil in Hin.
    + discriminate.
  - refine (readConfigFile_first_decisive (H:=DemoConfig.falsy_first)
              ["webpack.config.js"] "webpackfile.js" []
              eq_refl _ _ _).
    + apply elem_of_cons. right. apply elem_of_cons. left. reflexivity.
    + intros g Hin Hg. apply elem_of_cons in Hin as [->|Hin].
      * reflexivity.
      * by apply elem_of_nil in Hin.
    + discriminate.
Defined.

(** X13.  A configuration that [readConfigFile] returns is the export of a
    module that the directory lists under the name [webpack.config.js] or
    [webpackfile.js]. *)
Theorem readConfigFile_returns_listed_config `{ConfigEnv} config :
  readConfigFile = Ok (Some config) →
  ∃ file,
    file ∈ readdirSync dirname ∧
    (file = "webpack.config.js" ∨ file = "webpackfile.js") ∧
    require (path_join dirname file) = Ok (Some config).
Proof.
  intros (file & Hin & Hcfg & Hreq)%readConfigFile_loop_Some.
  exists file. split_and!; [done| |done].
  apply elem_of_cons in Hcfg as [->|Hcfg]; [by left|].
  apply elem_of_cons in Hcfg as [->|Hcfg]; [by right|].
  by apply elem_of_nil in Hcfg.
Qed.

Lemma readConfigFile_returns_listed_config_witness :
  readConfigFile (H0:=DemoConfig.only_config) = Ok (Some DemoConfig.with_entry) ∧
  ∃ file,
    file ∈ @readdirSync DemoConfig.only_config (@dirname DemoConfig.only_config) ∧
    (file = "webpack.config.js" ∨ file = "webpackfile.js") ∧
    @require DemoConfig.only_config
      (@path_join DemoConfig.only_config (@dirname DemoConfig.only_config) file)
    = Ok (Some DemoConfig.with_entry).
Proof.
  split; [reflexivity|].
  exact (readConfigFile_returns_listed_config (H:=DemoConfig.only_config)
           DemoConfig.with_entry eq_refl).
Defined.

(** X14.  [readConfigFile] loads no module other than [webpack.config.js]
    and [webpackfile.js] of its own directory: two installations with the
    same directory listing in which these two modules behave alike give the
    same result, whatever loading any other file would do. *)
Theorem readConfigFile_loads_config_files_only
    dir listing join (require1 require2 : string → result (option Config.t)) :
  (∀ name, name ∈ configFilePaths →
           require1 (join dir name) = require2 (join dir name)) →
  @readConfigFile (Build_ConfigEnv dir listing join require1)
  = @readConfigFile (Build_ConfigEnv dir listing join require2).
Proof.
  intros Hsame. unfold readConfigFile. cbn [dirname readdirSync].
  induction (listing dir) as [|file files IH]; [done|].
  rewrite !readConfigFile_loop_cons. cbn [dirname path_join require].
  case_decide as Hfile; [|done].
  rewrite (Hsame file Hfile), IH. done.
Qed.

Lemma readConfigFile_loads_config_files_only_witness :
  @readConfigFile
    (Build_ConfigEnv "/proj" (λ _, ["index.js"; "webpack.config.js"])
       (λ dir name, dir +:+ "/" +:+ name)
       (λ file, if decide (file = "/proj/webpack.config.js")
                then Ok (Some DemoConfig.with_entry)
                else if decide (file = "/proj/webpackfile.js")
                     then Ok None else Err TypeError))
  = @readConfigFile
      (Build_ConfigEnv "/proj" (λ _, ["index.js"; "webpack.config.js"])
         (λ dir name, dir +:+ "/" +:+ name)
         (λ file, if decide (file = "/proj/webpack.config.js")
                  then Ok (Some DemoConfig.with_entry) else Ok None)).
Proof.
  apply readConfigFile_loads_config_files_only.
  intros name Hname.
  apply elem_of_cons in Hname as [->|Hname]; [reflexivity|].
  apply elem_of_cons in Hname as [->|Hname]; [reflexivity|].
  by apply elem_of_nil in Hname.
Defined.

(** ** The entry point *)

Section EntryPoint.
Context `{Externals} `{ConfigEnv}.

Lemma build_Ok_files opts w w' :
  build opts w = (Ok tt, w') →
  ∃ code, files w' = <[output_file opts := code]> (files w).
Proof.
  intros Hrun. apply build_Ok_inv in Hrun
    as (file & template & graph & w2 & code & _ & _ & _ & Hgraph & _ & ->).
  apply createGraph_Ok_inv in Hgraph as (? & ? & _ & _ & _ & _ & _ & ->).
  by exists code.
Qed.

(** The call of [readConfigFile] returns or throws what [readConfigFile]
    says, and all it does to the world is listing the directory and
    loading modules. *)
Lemma readConfigFile_loop_io_eq names : ∀ w,
  ∃ loads,
    readConfigFile_loop_io names w
    = (readConfigFile_loop names,
       {| next_id := next_id w; files := files w;
          io_log := loads ++ io_log w |}) ∧
    Forall is_config_io loads.
Proof.
  induction names as [|file names IH]; intros w.
  - exists []. split; [|done]. unfold ret. cbn. f_equal. by apply world_eta.
  - cbn [readConfigFile_loop_io readConfigFile_loop].
    destruct (indexOf file configFilePaths) as [index|]; [|apply IH].
    destruct (configFilePaths !! index) as [name|].
    2:{ exists []. split; [|done]. unfold throw. cbn. f_equal.
        by apply world_eta. }
    unfold bind, require_io.
    destruct (require (path_join dirname name)) as [[options|]|e].
    + exists [EvRequire (path_join dirname name)].
      split; [done|by repeat constructor].
    + destruct (IH {| next_id := next_id w; files := files w;
                      io_log := EvRequire (path_join dirname name) :: io_log w |})
        as (loads & -> & Hloads).
      exists (loads ++ [EvRequire (path_join dirname name)]).
      split; [cbn; by rewrite <- app_assoc|].
      apply Forall_app. split; [done|by repeat constructor].
    + exists [EvRequire (path_join dirname name)].
      split; [done|by repeat constructor].
Qed.

Lemma readConfigFile_io_eq w :
  ∃ loads,
    readConfigFile_io w
    = (readConfigFile,
       {| next_id := next_id w; files := files w;
          io_log := loads ++ io_log w |}) ∧
    Forall is_config_io loads.
Proof.
  unfold readConfigFile_io, readConfigFile, bind, readdirSync_io.
  destruct (readConfigFile_loop_io_eq (readdirSync dirname)
              {| next_id := next_id w; files := files w;
                 io_log := EvReaddir dirname :: io_log w |})
    as (loads & -> & Hloads).
  exists (loads ++ [EvReaddir dirname]).
  split; [cbn; by rewrite <- app_assoc|].
  apply Forall_app. split; [done|by repeat constructor].
Qed.

End EntryPoint.



(** X16.  With a configuration that has no [output], a run of [init] that
    returns has written the bundle to [bundle.js] in the directory [dist]
    next to the program, and changed no other file. *)
Theorem init_default_output `{Externals} `{ConfigEnv} config w w' :
  readConfigFile = Ok (Some config) →
  Config.output config = None →
  init w = (Ok tt, w') →
  ∃ code,
    files w'
    = <[path_resolve dirname "dist" +:+ "/" +:+ "bundle.js" := code]> (files w).
Proof.
  intros Hcfg Hout. unfold init, bind.
  destruct (readConfigFile_io_eq w) as (loads & -> & _). rewrite Hcfg.
  change (default Config.empty (Some config)) with config.
  intros (code & ->)%build_Ok_files. exists code.
  unfold output_file, Object_assign. cbn [output]. by rewrite Hout.
Qed.

Lemma init_default_output_witness :
  init (H:=DemoConfig.externals) (H0:=DemoConfig.only_config)
    (initial_world Demo.chain)
    = (Ok tt, DemoConfig.built "/proj/dist/bundle.js") ∧
  ∃ code,
    files (DemoConfig.built "/proj/dist/bundle.js")
    = <["/proj/dist" +:+ "/" +:+ "bundle.js" := code]>
        (files (initial_world Demo.chain)).
Proof.
  assert (init (H:=DemoConfig.externals) (H0:=DemoConfig.only_config)
            (initial_world Demo.chain)
          = (Ok tt, DemoConfig.built "/proj/dist/bundle.js")) as Hrun
    by (vm_compute; reflexivity).
  split; [exact Hrun|].
  exact (init_default_output (H:=DemoConfig.externals)
           (H0:=DemoConfig.only_config) DemoConfig.with_entry
           (initial_world Demo.chain) _ eq_refl eq_refl Hrun).
Defined.

(** X17.  The [output] of a configuration replaces the default [output] as
    a whole: a run of [init] that returns has written the bundle to the file
    that the [path] and the [filename] of the configuration name, and a
    property the configuration leaves out is not taken from the defaults
    but turns into the text "undefined". *)
Theorem init_output_replaces_default `{Externals} `{ConfigEnv} config o w w' :
  readConfigFile = Ok (Some config) →
  Config.output config = Some o →
  init w = (Ok tt, w') →
  ∃ code,
    files w'
    = <[interpolate (Config.path o) +:+ "/"
        +:+ interpolate (Config.filename o) := code]> (files w).
Proof.
  intros Hcfg Hout. unfold init, bind.
  destruct (readConfigFile_io_eq w) as (loads & -> & _). rewrite Hcfg.
  change (default Config.empty (Some config)) with config.
  intros (code & ->)%build_Ok_files. exists code.
  unfold output_file, Object_assign. cbn [output]. by rewrite Hout.
Qed.

Lemma init_output_replaces_default_witness :
  init (H:=DemoConfig.externals) (H0:=DemoConfig.path_only)
    (initial_world Demo.chain)
    = (Ok tt, DemoConfig.built "/proj/out/undefined") ∧
  ∃ code,
    files (DemoConfig.built "/proj/out/undefined")
    = <["/proj/out" +:+ "/" +:+ "undefined" := code]>
        (files (initial_world Demo.chain)).
Proof.
  assert (init (H:=DemoConfig.externals) (H0:=DemoConfig.path_only)
            (initial_world Demo.chain)
          = (Ok tt, DemoConfig.built "/proj/out/undefined")) as Hrun
    by (vm_compute; reflexivity).
  split; [exact Hrun|].
  exact (init_output_replaces_default (H:=DemoConfig.externals)
           (H0:=DemoConfig.path_only) DemoConfig.with_path_only
           {| Config.path := Some "/proj/out"; Config.filename := None |}
           (initial_world Demo.chain) _ eq_refl eq_refl Hrun).
Defined.
